(** * KV Store Service: a shallow embedding of [kv-service/main.py] and
      [kv-service/models.py], and the properties of its store.

    The service keeps one process-wide dictionary [storage : Dict[str, Any]]
    guarded by [storage_lock = threading.RLock()].  Four handlers touch it:
    [store_key] (POST), [update_key] (PUT), [get_key] (GET) and [delete_key]
    (DELETE).  Each handler is embedded once, as a program over the atomic
    actions it performs on the lock and on the dictionary; the program is then
    run in two ways: sequentially ([run]), and interleaved with the programs of
    other callers ([step_thread], [exec]).

    Not modelled: the [logger] calls and the [time.time()] stamps, which only
    feed log lines and never reach a response or the dictionary. *)

From Stdlib Require Import ZArith String.
From stdpp Require Import base option strings pretty list functions gmap.

Set Warnings "-register-all,-clear-no-such-hyp".

Open Scope Z_scope.
Open Scope string_scope.
Open Scope list_scope.

(** ** JSON values

    What pydantic hands to the handler for [value: Any] once the request body
    has been decoded: [None], [bool], [int], [float], [str], [list], [dict].
    An [int] is unbounded; a [float] is a finite double, the number
    [m * 2 ^ e] (JSON has neither NaN nor infinities).  A [dict] keeps its
    members in insertion order, so it is an association list here. *)

Inductive json : Type :=
| JNull
| JBool (b : bool)
| JInt (n : Z)
| JFloat (m e : Z)
| JStr (s : string)
| JArr (items : list json)
| JObj (members : list (string * json)).

(** ** [models.py] *)

(** [class ValueModel(BaseModel)]: [key: str] and [value: Any].  The field
    validator [validate_json_serializable] calls [json.dumps(v)] and returns
    [v]; it rejects only Python objects outside the JSON data model, which the
    type [json] does not contain, so every [ValueModel.t] is a validated
    body.  [key] carries no length constraint. *)
Module ValueModel.
Record t : Type := Build { key : string; value : json }.
End ValueModel.

Definition HTTP_200_OK : Z := 200.
Definition HTTP_201_CREATED : Z := 201.
Definition HTTP_400_BAD_REQUEST : Z := 400.
Definition HTTP_404_NOT_FOUND : Z := 404.
Definition HTTP_422_UNPROCESSABLE_ENTITY : Z := 422.
Definition HTTP_500_INTERNAL_SERVER_ERROR : Z := 500.

(** The four [HTTPException] subclasses, each constructor taking the
    arguments of the class's [__init__]. *)
Inductive HTTPException : Type :=
| KeyNotFoundError (key : string)
| KeyMismatchError (path_key body_key : string)
| ValidationError (message : string)
| InternalServerError (message : string).

(** The [status_code=] each [__init__] passes to [super().__init__]. *)
Definition status_code (e : HTTPException) : Z :=
  match e with
  | KeyNotFoundError _ => HTTP_404_NOT_FOUND
  | KeyMismatchError _ _ => HTTP_400_BAD_REQUEST
  | ValidationError _ => HTTP_422_UNPROCESSABLE_ENTITY
  | InternalServerError _ => HTTP_500_INTERNAL_SERVER_ERROR
  end.

(** The text of the ["error"] member of each [detail=]. *)
Definition error_message (e : HTTPException) : string :=
  match e with
  | KeyNotFoundError key => "Key '" +:+ key +:+ "' not found"
  | KeyMismatchError path_key body_key =>
      "Key in path '" +:+ path_key +:+ "' does not match key in body '"
        +:+ body_key +:+ "'"
  | ValidationError message => "Validation error: " +:+ message
  | InternalServerError message => message
  end.

(** The [detail=] each [__init__] passes to [super().__init__]:
    [{"success": False, "error": ...}]. *)
Definition detail (e : HTTPException) : json :=
  JObj [("success", JBool false); ("error", JStr (error_message e))].

(** What a handler body can raise: one of the classes above, or the builtin
    [KeyError] of a dictionary subscription or [del] on a missing key. *)
Inductive exn : Type :=
| HTTP (e : HTTPException)
| KeyError (key : string).

(** [str(e)], used only by the [except Exception as e] clauses.  [KeyError]
    prints the [repr] of its key (quoting without escapes here); an
    [HTTPException] prints its status and detail (the detail is shown by its
    message here).  Lemmas [run_store_key], [run_update_key], [run_get_key]
    and [run_delete_key] show that no handler reaches those clauses. *)
Definition str (e : exn) : string :=
  match e with
  | KeyError key => "'" +:+ key +:+ "'"
  | HTTP h => pretty (status_code h) +:+ ": " +:+ error_message h
  end.

(** ** Handler programs *)

(** The atomic actions of a handler on the shared objects, indexed by the type
    of what each one yields. *)
Inductive action : Type → Type :=
| Acquire : action unit                          (* storage_lock.__enter__() *)
| Release : action unit                          (* storage_lock.__exit__()  *)
| Contains (key : string) : action bool          (* key in storage           *)
| GetItem (key : string) : action (option json)  (* storage[key]             *)
| SetItem (key : string) (v : json) : action unit(* storage[key] = v         *)
| DelItem (key : string) : action bool.          (* del storage[key]         *)

Inductive prog (A : Type) : Type :=
| Ret (a : A)
| Raise (e : exn)
| Vis {X : Type} (a : action X) (k : X → prog A).

Arguments Ret {A} a.
Arguments Raise {A} e.
Arguments Vis {A X} a k.

Fixpoint bind {A B : Type} (p : prog A) (f : A → prog B) : prog B :=
  match p with
  | Ret a => f a
  | Raise e => Raise e
  | Vis a k => Vis a (λ x, bind (k x) f)
  end.

#[global] Instance prog_ret : MRet prog := @Ret.
#[global] Instance prog_bind : MBind prog := λ A B f p, bind p f.

(** [try: p except Exception as e: h e].  An exception raised by the clause
    itself leaves the statement. *)
Fixpoint try_except {A : Type} (p : prog A) (h : exn → prog A) : prog A :=
  match p with
  | Ret a => Ret a
  | Raise e => h e
  | Vis a k => Vis a (λ x, try_except (k x) h)
  end.

(** [with storage_lock: body]: the lock is released on the way out, whether
    the body ends normally or raises. *)
Fixpoint releasing {A : Type} (body : prog A) : prog A :=
  match body with
  | Ret a => Vis Release (λ _, Ret a)
  | Raise e => Vis Release (λ _, Raise e)
  | Vis a k => Vis a (λ x, releasing (k x))
  end.

Definition with_storage_lock {A : Type} (body : prog A) : prog A :=
  Vis Acquire (λ _, releasing body).

Definition not_in (key : string) : prog bool :=
  Vis (Contains key) (λ b, Ret (negb b)).

Definition getitem (key : string) : prog json :=
  Vis (GetItem key) (λ o, match o with Some v => Ret v | None => Raise (KeyError key) end).

Definition setitem (key : string) (v : json) : prog unit :=
  Vis (SetItem key v) Ret.

Definition delitem (key : string) : prog unit :=
  Vis (DelItem key) (λ present, if present : bool then Ret () else Raise (KeyError key)).

Definition raise_if (c : bool) (e : exn) : prog unit :=
  if c then Raise e else Ret ().

(** ** [main.py] *)

Definition health_check : prog json :=
  Ret (JObj [("status", JStr "healthy")]).

Definition store_key (key : string) (data : ValueModel.t) : prog json :=
  try_except
    (raise_if (bool_decide (key ≠ ValueModel.key data))
       (HTTP (KeyMismatchError key (ValueModel.key data))) ;;
     with_storage_lock (setitem key (ValueModel.value data)) ;;
     Ret (JObj [("success", JBool true); ("message", JStr "Value stored successfully")]))
    (λ e, match e with
          | HTTP (KeyMismatchError _ _) => Raise e
          | _ => Raise (HTTP (InternalServerError ("Failed to store key: " +:+ str e)))
          end).

Definition update_key (key : string) (data : ValueModel.t) : prog json :=
  try_except
    (raise_if (bool_decide (key ≠ ValueModel.key data))
       (HTTP (KeyMismatchError key (ValueModel.key data))) ;;
     with_storage_lock (setitem key (ValueModel.value data)) ;;
     Ret (JObj [("success", JBool true); ("message", JStr "Value stored successfully")]))
    (λ e, match e with
          | HTTP (KeyMismatchError _ _) => Raise e
          | _ => Raise (HTTP (InternalServerError ("Failed to update key: " +:+ str e)))
          end).

Definition get_key (key : string) : prog json :=
  try_except
    (value ← with_storage_lock
       (absent ← not_in key;
        raise_if absent (HTTP (KeyNotFoundError key)) ;;
        getitem key);
     Ret (JObj [("success", JBool true); ("key", JStr key); ("value", value)]))
    (λ e, match e with
          | HTTP (KeyNotFoundError _) => Raise e
          | _ => Raise (HTTP (InternalServerError ("Failed to retrieve key: " +:+ str e)))
          end).

Definition delete_key (key : string) : prog json :=
  try_except
    (with_storage_lock
       (absent ← not_in key;
        raise_if absent (HTTP (KeyNotFoundError key)) ;;
        delitem key) ;;
     Ret (JObj [("success", JBool true); ("message", JStr "Key deleted successfully")]))
    (λ e, match e with
          | HTTP (KeyNotFoundError _) => Raise e
          | _ => Raise (HTTP (InternalServerError ("Failed to delete key: " +:+ str e)))
          end).

(** ** Sequential execution *)

(** One action on the dictionary.  With a single caller the re-entrant lock is
    free whenever it is asked for, so [Acquire] and [Release] pass through;
    [perform_at] below gives them their meaning among several
    callers. *)
Definition perform {X : Type} (a : action X) (storage : gmap string json)
  : X * gmap string json :=
  match a in action X return X * gmap string json with
  | Acquire => ((), storage)
  | Release => ((), storage)
  | Contains key => (bool_decide (is_Some (storage !! key)), storage)
  | GetItem key => (storage !! key, storage)
  | SetItem key v => ((), <[key := v]> storage)
  | DelItem key => (bool_decide (is_Some (storage !! key)), delete key storage)
  end.

Fixpoint run {A : Type} (p : prog A) (storage : gmap string json)
  : (exn + A) * gmap string json :=
  match p with
  | Ret a => (inr a, storage)
  | Raise e => (inl e, storage)
  | Vis a k => let '(x, storage') := perform a storage in run (k x) storage'
  end.

(** ** The routes *)

(** The decorators of [main.py]: method, path parameter and body. *)
Inductive Request : Type :=
| GET_health
| POST_keys (key : string) (data : ValueModel.t)
| PUT_keys (key : string) (data : ValueModel.t)
| GET_keys (key : string)
| DELETE_keys (key : string).

Definition endpoint (r : Request) : prog json :=
  match r with
  | GET_health => health_check
  | POST_keys key data => store_key key data
  | PUT_keys key data => update_key key data
  | GET_keys key => get_key key
  | DELETE_keys key => delete_key key
  end.

(** [status_code=status.HTTP_201_CREATED] on the POST route; the others take
    the framework's default. *)
Definition success_status (r : Request) : Z :=
  match r with
  | POST_keys _ _ => HTTP_201_CREATED
  | _ => HTTP_200_OK
  end.

Record Response : Type := { status : Z; body : json }.

(** How the framework answers.  A returned dictionary is the body, under the
    route's status.  The application registers no exception handler, so a
    raised [HTTPException] goes through the framework's default one, whose
    body is [{"detail": exc.detail}]; the tests read it that way
    ([response.json()["detail"]["success"]]).  Any other exception escaping a
    handler becomes the server's plain 500 page. *)
Definition respond (ok : Z) (outcome : exn + json) : Response :=
  match outcome with
  | inr b => {| status := ok; body := b |}
  | inl (HTTP e) => {| status := status_code e; body := JObj [("detail", detail e)] |}
  | inl (KeyError _) =>
      {| status := HTTP_500_INTERNAL_SERVER_ERROR; body := JStr "Internal Server Error" |}
  end.

Definition serve (r : Request) (storage : gmap string json)
  : Response * gmap string json :=
  let '(outcome, storage') := run (endpoint r) storage in
  (respond (success_status r) outcome, storage').

(** ** Test data

    The values of [tests/test_main.py]: the nested document of
    [test_store_key_with_complex_value] and the keys of
    [test_store_key_mismatch]. *)

Definition complex_value : json :=
  JObj [("string", JStr "hello"); ("number", JInt 42); ("boolean", JBool true);
        ("null", JNull); ("array", JArr [JInt 1; JInt 2; JInt 3]);
        ("nested", JObj [("a", JInt 1); ("b", JInt 2)])].

Definition mismatch_body : ValueModel.t :=
  ValueModel.Build "bodykey" (JStr "testvalue").

(** ** Concurrent execution

    Any number of callers, each a thread of its own issuing its requests one
    after the other.  A caller's call in flight is the rest of its handler
    program; the scheduler picks which caller moves next, and a move is one
    of: start the next call, perform the next action of the call in flight,
    or return.  (Under the event loop an [async def] handler without [await]
    runs without interruption: that is the schedule in which the moves of
    each call are consecutive.) *)

(** [threading.RLock]: free, or owned by a caller together with the number of
    times the owner has re-entered it. *)
Definition rlock : Type := option (nat * nat).

Definition acquire (t : nat) (lk : rlock) : option rlock :=
  match lk with
  | None => Some (Some (t, 0%nat))
  | Some (o, n) => if decide (o = t) then Some (Some (o, S n)) else None
  end.

(** Only the owner releases.  (Python raises [RuntimeError] on any other
    release; here such a caller has no move, and [coherent_progress] shows
    that the caller holding the lock always has one.) *)
Definition release (t : nat) (lk : rlock) : option rlock :=
  match lk with
  | Some (o, n) =>
      if decide (o = t)
      then Some (match n with O => None | S n' => Some (o, n') end)
      else None
  | None => None
  end.

(** One action by caller [t]; [None] when [t] has to wait. *)
Definition perform_at {X : Type} (t : nat) (a : action X)
    (st : gmap string json) (lk : rlock) : option (X * gmap string json * rlock) :=
  match a in action X return option (X * gmap string json * rlock) with
  | Acquire => lk' ← acquire t lk; Some ((), st, lk')
  | Release => lk' ← release t lk; Some ((), st, lk')
  | Contains key => Some (perform (Contains key) st, lk)
  | GetItem key => Some (perform (GetItem key) st, lk)
  | SetItem key v => Some (perform (SetItem key v) st, lk)
  | DelItem key => Some (perform (DelItem key) st, lk)
  end.

Record caller : Type :=
  { todo : list Request;                       (* calls still to make *)
    running : option (Request * prog json) }.  (* the call in flight  *)

Inductive event : Type :=
| Invoke (t : nat) (r : Request)
| Return (t : nat) (r : Request) (outcome : exn + json).

Record config : Type :=
  { storage : gmap string json;
    storage_lock : rlock;
    callers : list caller;
    history : list event }.

(** How a finished handler program leaves. *)
Definition finish {A : Type} (p : prog A) : option (exn + A) :=
  match p with
  | Ret a => Some (inr a)
  | Raise e => Some (inl e)
  | Vis _ _ => None
  end.

Definition step_thread (t : nat) (c : config) : option config :=
  th ← callers c !! t;
  match running th with
  | None =>
      match todo th with
      | [] => None
      | r :: rest =>
          Some {| storage := storage c; storage_lock := storage_lock c;
                  callers := <[t := {| todo := rest; running := Some (r, endpoint r) |}]> (callers c);
                  history := history c ++ [Invoke t r] |}
      end
  | Some (r, Ret b) =>
      Some {| storage := storage c; storage_lock := storage_lock c;
              callers := <[t := {| todo := todo th; running := None |}]> (callers c);
              history := history c ++ [Return t r (inr b)] |}
  | Some (r, Raise e) =>
      Some {| storage := storage c; storage_lock := storage_lock c;
              callers := <[t := {| todo := todo th; running := None |}]> (callers c);
              history := history c ++ [Return t r (inl e)] |}
  | Some (r, Vis a k) =>
      '(x, st', lk') ← perform_at t a (storage c) (storage_lock c);
      Some {| storage := st'; storage_lock := lk';
              callers := <[t := {| todo := todo th; running := Some (r, k x) |}]> (callers c);
              history := history c |}
  end.

(** A schedule is the list of callers picked, in order. *)
Fixpoint exec (sched : list nat) (c : config) : option config :=
  match sched with
  | [] => Some c
  | t :: sched' => c' ← step_thread t c; exec sched' c'
  end.

Definition init (st0 : gmap string json) (pool : list (list Request)) : config :=
  {| storage := st0; storage_lock := None;
     callers := (λ rs, {| todo := rs; running := None |}) <$> pool;
     history := [] |}.

Definition finished (c : config) : Prop :=
  Forall (λ th, todo th = [] ∧ running th = None) (callers c).

(** ** Linearizability

    A history is linearizable when a commit point can be placed inside every
    call, between its invocation and its return, such that the calls, taken
    one at a time in the order of their commit points, give the very
    outcomes the callers saw. *)

Inductive mark : Type :=
| Ev (e : event)
| Commit (t : nat) (r : Request) (outcome : exn + json).

Definition erase (ms : list mark) : list event :=
  omap (λ m, match m with Ev e => Some e | Commit _ _ _ => None end) ms.

Definition commits (ms : list mark) : list (Request * (exn + json)) :=
  omap (λ m, match m with Ev _ => None | Commit _ r o => Some (r, o) end) ms.

Inductive phase : Type :=
| Idle
| Invoked (r : Request)
| Committed (r : Request) (outcome : exn + json).

(** Every caller goes invoke, commit, return, invoke, ...; the second
    argument is where each caller stands at the end. *)
Inductive protocol : list mark → (nat → phase) → Prop :=
| protocol_nil : protocol [] (λ _, Idle)
| protocol_invoke ms ph t r :
    protocol ms ph → ph t = Idle →
    protocol (ms ++ [Ev (Invoke t r)]) (<[t := Invoked r]> ph)
| protocol_commit ms ph t r o :
    protocol ms ph → ph t = Invoked r →
    protocol (ms ++ [Commit t r o]) (<[t := Committed r o]> ph)
| protocol_return ms ph t r o :
    protocol ms ph → ph t = Committed r o →
    protocol (ms ++ [Ev (Return t r o)]) (<[t := Idle]> ph).

(** The requests served one at a time: their outcomes and the final store. *)
Fixpoint serial (rs : list Request) (st : gmap string json)
  : list (exn + json) * gmap string json :=
  match rs with
  | [] => ([], st)
  | r :: rs' =>
      let '(o, st') := run (endpoint r) st in
      let '(os, st'') := serial rs' st' in
      (o :: os, st'')
  end.

Definition linearization (st0 : gmap string json) (h : list event)
    (cs : list (Request * (exn + json))) (final : gmap string json) : Prop :=
  ∃ ms, erase ms = h
        ∧ (∃ ph, protocol ms ph)
        ∧ commits ms = cs
        ∧ serial cs.*1 st0 = (cs.*2, final).

(** ** Lock discipline of a handler program *)

(** Inside the [with] block: dictionary actions only, then the release, and
    nothing but the result after it. *)
Fixpoint inside {A : Type} (p : prog A) : Prop :=
  match p with
  | Ret _ | Raise _ => False
  | Vis a k =>
      match a in action X return (X → prog A) → (X → Prop) → Prop with
      | Acquire => λ _ _, False
      | Release => λ k _, is_Some (finish (k ()))
      | _ => λ _ rec, ∀ x, rec x
      end k (λ x, inside (k x))
  end.

(** Before the block: either there is none and the program is its result, or
    the first action is the acquisition. *)
Definition outside {A : Type} (p : prog A) : Prop :=
  match p with
  | Ret _ | Raise _ => True
  | Vis a k =>
      match a in action X return (X → prog A) → Prop with
      | Acquire => λ k, inside (k ())
      | _ => λ _, False
      end k
  end.

(** The writes of [TestConcurrentAccess]: one POST per caller, path key and
    body key equal. *)
Definition post (kv : string * json) : Request :=
  POST_keys kv.1 (ValueModel.Build kv.1 kv.2).

Definition posts (kvs : list (string * json)) : list (list Request) :=
  (λ kv, [post kv]) <$> kvs.

(** Two of those writers, and one way the scheduler may interleave them:
    both invoke, caller 0 goes through its block, caller 1 through its own,
    caller 0 returns before caller 1 has released. *)
Definition two_writers : list (string * json) :=
  [("thread1_0", JStr "value_0"); ("thread2_0", JStr "value_0")].

Definition interleaved : list nat := [0; 1; 0; 0; 0; 1; 1; 0; 1; 1]%nat.

(** ** The invariant of concurrent executions *)

Definition owner (lk : rlock) : option nat := fst <$> lk.

(** Where a caller stands: idle; returned from the block, hence committed; in
    a fresh call that has not taken the lock; or inside the block, where
    what is left of its program does to the current dictionary what the whole
    handler does to the dictionary as it was at the last commit. *)
Definition caller_ok (st : gmap string json) (lk : rlock) (abs : gmap string json)
    (ph : nat → phase) (t : nat) (th : caller) : Prop :=
  match running th with
  | None => ph t = Idle ∧ owner lk ≠ Some t
  | Some (r, p) =>
      match finish p with
      | Some o => ph t = Committed r o ∧ owner lk ≠ Some t
      | None =>
          ph t = Invoked r
          ∧ ((p = endpoint r ∧ owner lk ≠ Some t)
             ∨ (lk = Some (t, 0%nat) ∧ inside p ∧ run p st = run (endpoint r) abs))
      end
  end.

(** The requests of a caller that have not been committed yet. *)
Definition owed (th : caller) : list Request :=
  match running th with
  | Some (r, p) => match finish p with Some _ => [] | None => [r] end
  | None => []
  end ++ todo th.

Record coherent (st0 : gmap string json) (pool : list (list Request))
    (c : config) (ms : list mark) (ph : nat → phase) (abs : gmap string json) : Prop :=
  { coh_history : erase ms = history c;
    coh_protocol : protocol ms ph;
    coh_serial : serial (commits ms).*1 st0 = ((commits ms).*2, abs);
    coh_free : storage_lock c = None → storage c = abs;
    coh_owner : ∀ o n, storage_lock c = Some (o, n) →
                  n = 0%nat ∧ ∃ th r p, callers c !! o = Some th
                                        ∧ running th = Some (r, p) ∧ inside p;
    coh_callers : ∀ t th, callers c !! t = Some th →
                    caller_ok (storage c) (storage_lock c) abs ph t th;
    coh_owed : (commits ms).*1 ++ concat (owed <$> callers c) ≡ₚ concat pool }.

(** ** A bound on the moves left *)

(** [within n p]: [p] finishes after at most [n] actions, whatever they
    yield. *)
Fixpoint within {A : Type} (n : nat) (p : prog A) : Prop :=
  match p with
  | Ret _ | Raise _ => True
  | Vis a k =>
      match n with
      | O => False
      | S n' => ∀ x, within n' (k x)
      end
  end.

(** A call is at most six moves: the invocation, four actions, the return. *)
Definition caller_fuel (th : caller) (n : nat) : Prop :=
  match running th with
  | None => n = (6 * length (todo th))%nat
  | Some (_, p) => ∃ h, within h p ∧ (h ≤ 4)%nat ∧ n = (6 * length (todo th) + S h)%nat
  end.

(** ** More of [kv-service/main.py] *)

(** [shutdown_event]: [key_count = len(storage)], read under the lock for the
    farewell log line. *)
Definition key_count (storage : gmap string json) : nat := size storage.

(** The path key of a request to a [/keys/{key}] route. *)
Definition key_of (r : Request) : option string :=
  match r with
  | GET_health => None
  | POST_keys key _ | PUT_keys key _ | GET_keys key | DELETE_keys key => Some key
  end.

(** The routes that can change the binding of [k]: POST, PUT and DELETE on
    the path key [k]. *)
Definition may_change (k : string) (r : Request) : Prop :=
  match r with
  | POST_keys key _ | PUT_keys key _ | DELETE_keys key => key = k
  | GET_health | GET_keys _ => False
  end.

(** ** [test-client]: the HTTP client it drives

    What [test-client/main.py] uses of [httpx.AsyncClient]: a call has a
    method, a URL and, for POST and PUT, the [json=] document; it yields a
    response, of which the harness reads [status_code], [text] and
    [json()], or it raises.  The [timeout=10.0] argument only decides when
    the library raises [TimeoutException]. *)
Module httpx.

Inductive Method : Type := POST | GET | PUT | DELETE.

Record Call : Type :=
  { method : Method;
    url : string;
    payload : option json }.       (* json= *)

(** [decoded] is what [response.json()] does: the decoded body, or the text
    [str(e)] of the exception it raises on a body that is not JSON. *)
Record Response : Type :=
  { status_code : Z;
    text : string;
    decoded : string + json }.

(** What a call can raise: [httpx.TimeoutException], or any other exception,
    kept by its [str(e)]. *)
Inductive Failure : Type :=
| TimeoutException
| Error (message : string).

End httpx.

(** ** [test-client/models.py]

    [model_dump()] of the three models: a dictionary with the fields in the
    order the class declares them. *)

Definition TestDetails (steps_executed : Z) (all_assertions_passed : bool) : json :=
  JObj [("steps_executed", JInt steps_executed);
        ("all_assertions_passed", JBool all_assertions_passed)].

Definition TestResponse (success : bool) (test_name : string) (details : json) : json :=
  JObj [("success", JBool success); ("test_name", JStr test_name); ("details", details)].

Definition TestErrorResponse (success : bool) (test_name step error : string) : json :=
  JObj [("success", JBool success); ("test_name", JStr test_name);
        ("error", JStr error); ("step", JStr step)].

(** ** [test-client/main.py] *)

(** [d.get(k)] on a dictionary: the value under [k], or [None].  (The keys of
    a dictionary are distinct, so the first match is the only one.) *)
Fixpoint dict_get (members : list (string * json)) (k : string) : json :=
  match members with
  | [] => JNull
  | (k', v) :: rest => if bool_decide (k' = k) then v else dict_get rest k
  end.

(** [type(x).__name__], as it appears in an [AttributeError]. *)
Definition type_name (x : json) : string :=
  match x with
  | JNull => "NoneType"
  | JBool _ => "bool"
  | JInt _ => "int"
  | JFloat _ _ => "float"
  | JStr _ => "str"
  | JArr _ => "list"
  | JObj _ => "dict"
  end.

(** [x != s] for a string [s]: only an equal string is equal to it. *)
Definition ne_str (x : json) (s : string) : bool :=
  match x with
  | JStr s' => bool_decide (s' ≠ s)
  | _ => true
  end.

(** Where a handler of the harness stands after a statement: it goes on with
    a value, it has returned its result, or an exception is on its way to
    the [except] clauses. *)
Inductive flow (A : Type) : Type :=
| Continue (a : A)
| Returned (result : json)
| Raised (e : httpx.Failure).

Arguments Continue {A} a.
Arguments Returned {A} result.
Arguments Raised {A} e.

Section TestClient.

(** The remote end, as the mocks of [test-client/tests/test_main.py] stand in
    for it: some state, and an answer to each call. *)
Context {Remote : Type}.
Context (client : httpx.Call → Remote → (httpx.Failure + httpx.Response) * Remote).

(** [os.getenv("KV_SERVICE_URL", "http://kv-service:8000")]. *)
Context (KV_SERVICE_URL : string).

Definition script (A : Type) : Type := Remote → flow A * Remote.

#[local] Instance script_ret : MRet script := λ A a s, (Continue a, s).

#[local] Instance script_bind : MBind script := λ A B f m s,
  match m s with
  | (Continue a, s') => f a s'
  | (Returned result, s') => (Returned result, s')
  | (Raised e, s') => (Raised e, s')
  end.

(** [await client.post(...)] and the like. *)
Definition await (c : httpx.Call) : script httpx.Response := λ s,
  match client c s with
  | (inl e, s') => (Raised e, s')
  | (inr response, s') => (Continue response, s')
  end.

(** [if c: return result] *)
Definition return_if (c : bool) (result : json) : script unit := λ s,
  if c then (Returned result, s) else (Continue (), s).

(** [response.json()] *)
Definition json_of (response : httpx.Response) : script json := λ s,
  match httpx.decoded response with
  | inl message => (Raised (httpx.Error message), s)
  | inr data => (Continue data, s)
  end.

(** [data.get(k)]: only a dictionary has the method. *)
Definition get_of (data : json) (k : string) : script json := λ s,
  match data with
  | JObj members => (Continue (dict_get members k), s)
  | _ => (Raised (httpx.Error ("'" +:+ type_name data +:+ "' object has no attribute 'get'")), s)
  end.

(** The [try] statement both handlers are wrapped in. *)
Definition guarded (test_name : string) (body : script json) (s : Remote) : json * Remote :=
  match body s with
  | (Continue result, s') | (Returned result, s') => (result, s')
  | (Raised httpx.TimeoutException, s') =>
      (TestErrorResponse false test_name "connection" "Timeout connecting to KV service", s')
  | (Raised (httpx.Error message), s') =>
      (TestErrorResponse false test_name "unknown" message, s')
  end.

Definition test_deletion : Remote → json * Remote :=
  let test_key := "test_delete_key" in
  let test_value := "test_delete_value" in
  let steps_executed := 0 in
  guarded "test_deletion"
    (store_response ← await {| httpx.method := httpx.POST;
                               httpx.url := KV_SERVICE_URL +:+ "/keys/" +:+ test_key;
                               httpx.payload := Some (JObj [("key", JStr test_key);
                                                            ("value", JStr test_value)]) |};
     let steps_executed := steps_executed + 1 in
     return_if (bool_decide (httpx.status_code store_response ∉ [200; 201]))
       (TestErrorResponse false "test_deletion" "store" (httpx.text store_response)) ;;
     get_response ← await {| httpx.method := httpx.GET;
                             httpx.url := KV_SERVICE_URL +:+ "/keys/" +:+ test_key;
                             httpx.payload := None |};
     let steps_executed := steps_executed + 1 in
     return_if (bool_decide (httpx.status_code get_response ≠ 200))
       (TestErrorResponse false "test_deletion" "retrieve" (httpx.text get_response)) ;;
     retrieved_data ← json_of get_response;
     value ← get_of retrieved_data "value";
     return_if (ne_str value test_value)
       (TestErrorResponse false "test_deletion" "retrieve" "Value mismatch") ;;
     delete_response ← await {| httpx.method := httpx.DELETE;
                                httpx.url := KV_SERVICE_URL +:+ "/keys/" +:+ test_key;
                                httpx.payload := None |};
     let steps_executed := steps_executed + 1 in
     return_if (bool_decide (httpx.status_code delete_response ≠ 200))
       (TestErrorResponse false "test_deletion" "delete" (httpx.text delete_response)) ;;
     verify_response ← await {| httpx.method := httpx.GET;
                                httpx.url := KV_SERVICE_URL +:+ "/keys/" +:+ test_key;
                                httpx.payload := None |};
     let steps_executed := steps_executed + 1 in
     return_if (bool_decide (httpx.status_code verify_response ≠ 404))
       (TestErrorResponse false "test_deletion" "verify_deletion" "Key still exists") ;;
     mret (TestResponse true "test_deletion" (TestDetails steps_executed true))).

Definition test_overwrite : Remote → json * Remote :=
  let test_key := "test_overwrite_key" in
  let original_value := "original_value" in
  let new_value := "new_value" in
  let steps_executed := 0 in
  guarded "test_overwrite"
    (store_response ← await {| httpx.method := httpx.POST;
                               httpx.url := KV_SERVICE_URL +:+ "/keys/" +:+ test_key;
                               httpx.payload := Some (JObj [("key", JStr test_key);
                                                            ("value", JStr original_value)]) |};
     let steps_executed := steps_executed + 1 in
     return_if (bool_decide (httpx.status_code store_response ∉ [200; 201]))
       (TestErrorResponse false "test_overwrite" "store_original" (httpx.text store_response)) ;;
     get_response ← await {| httpx.method := httpx.GET;
                             httpx.url := KV_SERVICE_URL +:+ "/keys/" +:+ test_key;
                             httpx.payload := None |};
     let steps_executed := steps_executed + 1 in
     return_if (bool_decide (httpx.status_code get_response ≠ 200))
       (TestErrorResponse false "test_overwrite" "retrieve_original" (httpx.text get_response)) ;;
     retrieved_data ← json_of get_response;
     value ← get_of retrieved_data "value";
     return_if (ne_str value original_value)
       (TestErrorResponse false "test_overwrite" "retrieve_original" "Original value mismatch") ;;
     overwrite_response ← await {| httpx.method := httpx.PUT;
                                   httpx.url := KV_SERVICE_URL +:+ "/keys/" +:+ test_key;
                                   httpx.payload := Some (JObj [("key", JStr test_key);
                                                                ("value", JStr new_value)]) |};
     let steps_executed := steps_executed + 1 in
     return_if (bool_decide (httpx.status_code overwrite_response ≠ 200))
       (TestErrorResponse false "test_overwrite" "overwrite" (httpx.text overwrite_response)) ;;
     verify_response ← await {| httpx.method := httpx.GET;
                                httpx.url := KV_SERVICE_URL +:+ "/keys/" +:+ test_key;
                                httpx.payload := None |};
     let steps_executed := steps_executed + 1 in
     return_if (bool_decide (httpx.status_code verify_response ≠ 200))
       (TestErrorResponse false "test_overwrite" "verify_new" (httpx.text verify_response)) ;;
     verified_data ← json_of verify_response;
     value ← get_of verified_data "value";
     return_if (ne_str value new_value)
       (TestErrorResponse false "test_overwrite" "verify_new" "New value mismatch") ;;
     await {| httpx.method := httpx.DELETE;
              httpx.url := KV_SERVICE_URL +:+ "/keys/" +:+ test_key;
              httpx.payload := None |} ;;
     mret (TestResponse true "test_overwrite" (TestDetails steps_executed true))).

End TestClient.

(** ** Reading the properties of the harness *)

Definition keys_url (base key : string) : string := base +:+ "/keys/" +:+ key.

Definition post_call (base key : string) (v : json) : httpx.Call :=
  {| httpx.method := httpx.POST; httpx.url := keys_url base key;
     httpx.payload := Some (JObj [("key", JStr key); ("value", v)]) |}.

Definition put_call (base key : string) (v : json) : httpx.Call :=
  {| httpx.method := httpx.PUT; httpx.url := keys_url base key;
     httpx.payload := Some (JObj [("key", JStr key); ("value", v)]) |}.

Definition get_call (base key : string) : httpx.Call :=
  {| httpx.method := httpx.GET; httpx.url := keys_url base key; httpx.payload := None |}.

Definition delete_call (base key : string) : httpx.Call :=
  {| httpx.method := httpx.DELETE; httpx.url := keys_url base key; httpx.payload := None |}.

(** The calls of each workflow, in the order of the source, when nothing
    stops it. *)
Definition deletion_calls (base : string) : list httpx.Call :=
  [post_call base "test_delete_key" (JStr "test_delete_value");
   get_call base "test_delete_key";
   delete_call base "test_delete_key";
   get_call base "test_delete_key"].

Definition overwrite_calls (base : string) : list httpx.Call :=
  [post_call base "test_overwrite_key" (JStr "original_value");
   get_call base "test_overwrite_key";
   put_call base "test_overwrite_key" (JStr "new_value");
   get_call base "test_overwrite_key";
   delete_call base "test_overwrite_key"].

(** A client that keeps the transcript of its calls and their answers. *)
Definition recorded {Remote : Type}
    (client : httpx.Call → Remote → (httpx.Failure + httpx.Response) * Remote)
    (c : httpx.Call)
    (s : Remote * list (httpx.Call * (httpx.Failure + httpx.Response)))
  : (httpx.Failure + httpx.Response)
    * (Remote * list (httpx.Call * (httpx.Failure + httpx.Response))) :=
  let '(answer, remote) := client c s.1 in
  (answer, (remote, s.2 ++ [(c, answer)])).

(** A client whose answers are fixed in advance, as the [AsyncMock]s of the
    tests are; once they are used up the mock raises. *)
Definition scripted (c : httpx.Call) (answers : list (httpx.Failure + httpx.Response))
  : (httpx.Failure + httpx.Response) * list (httpx.Failure + httpx.Response) :=
  match answers with
  | [] => (inl (httpx.Error ""), [])
  | answer :: rest => (answer, rest)
  end.

(** The harness in front of the service: a client is wired to the routes of
    [kv-service/main.py] for the key [k] when its calls on [/keys/k] are
    answered by [serve] on the service's dictionary, status and JSON body as
    the route gives them. *)
Definition answers_with (reply : (httpx.Failure + httpx.Response) * gmap string json)
    (served : Response * gmap string json) : Prop :=
  reply.2 = served.2
  ∧ ∃ response, reply.1 = inr response
                ∧ httpx.status_code response = status served.1
                ∧ httpx.decoded response = inr (body served.1).

Definition wired
    (client : httpx.Call → gmap string json
              → (httpx.Failure + httpx.Response) * gmap string json)
    (base k : string) : Prop :=
  ∀ st,
    (∀ v, answers_with (client (post_call base k v) st)
            (serve (POST_keys k (ValueModel.Build k v)) st))
    ∧ (∀ v, answers_with (client (put_call base k v) st)
              (serve (PUT_keys k (ValueModel.Build k v)) st))
    ∧ answers_with (client (get_call base k) st) (serve (GET_keys k) st)
    ∧ answers_with (client (delete_call base k) st) (serve (DELETE_keys k) st).

(** A stand-in for the deployed service that knows the one key [k]. *)
Definition loopback (base k : string) (c : httpx.Call) (st : gmap string json)
  : (httpx.Failure + httpx.Response) * gmap string json :=
  let over_http (served : Response * gmap string json) :=
    (inr {| httpx.status_code := status served.1; httpx.text := "";
            httpx.decoded := inr (body served.1) |}, served.2) in
  if bool_decide (httpx.url c = keys_url base k) then
    match httpx.method c, httpx.payload c with
    | httpx.POST, Some (JObj [(_, JStr k'); (_, v)]) =>
        over_http (serve (POST_keys k (ValueModel.Build k' v)) st)
    | httpx.PUT, Some (JObj [(_, JStr k'); (_, v)]) =>
        over_http (serve (PUT_keys k (ValueModel.Build k' v)) st)
    | httpx.GET, _ => over_http (serve (GET_keys k) st)
    | httpx.DELETE, _ => over_http (serve (DELETE_keys k) st)
    | _, _ => (inl (httpx.Error "unprocessable"), st)
    end
  else (inl (httpx.Error "unreachable"), st).

(** The actions of a handler that the [with storage_lock] block is there to
    protect: everything but the acquisition. *)
Definition needs_lock {X : Type} (a : action X) : bool :=
  match a with
  | Acquire => false
  | _ => true
  end.

(** A writer inside its block and a health probe waiting to be served: the
    configuration after caller 0 of this pool has invoked and acquired. *)
Definition writer_and_probe : list (list Request) :=
  [[POST_keys "testkey" (ValueModel.Build "testkey" (JStr "testvalue"))]; [GET_health]].

(** * Sequential behaviour of the handlers *)

Section Sequential.
Implicit Types (key k : string) (data : ValueModel.t) (v : json).
Implicit Types (storage st : gmap string json).

(** Each handler, run alone, in closed form.  None of them reaches its
    [except Exception] clause. *)

Lemma run_store_key key data st :
  run (store_key key data) st =
    if bool_decide (key = ValueModel.key data)
    then (inr (JObj [("success", JBool true); ("message", JStr "Value stored successfully")]),
          <[key := ValueModel.value data]> st)
    else (inl (HTTP (KeyMismatchError key (ValueModel.key data))), st).
Proof.
  unfold store_key. destruct (decide (key = ValueModel.key data)) as [Heq|Hne].
  - rewrite (bool_decide_eq_true_2 _ Heq), bool_decide_eq_false_2 by auto. reflexivity.
  - rewrite (bool_decide_eq_false_2 _ Hne), bool_decide_eq_true_2 by auto. reflexivity.
Qed.

Lemma run_update_key key data st :
  run (update_key key data) st =
    if bool_decide (key = ValueModel.key data)
    then (inr (JObj [("success", JBool true); ("message", JStr "Value stored successfully")]),
          <[key := ValueModel.value data]> st)
    else (inl (HTTP (KeyMismatchError key (ValueModel.key data))), st).
Proof.
  unfold update_key. destruct (decide (key = ValueModel.key data)) as [Heq|Hne].
  - rewrite (bool_decide_eq_true_2 _ Heq), bool_decide_eq_false_2 by auto. reflexivity.
  - rewrite (bool_decide_eq_false_2 _ Hne), bool_decide_eq_true_2 by auto. reflexivity.
Qed.

Lemma run_get_key key st :
  run (get_key key) st =
    match st !! key with
    | Some v => (inr (JObj [("success", JBool true); ("key", JStr key); ("value", v)]), st)
    | None => (inl (HTTP (KeyNotFoundError key)), st)
    end.
Proof.
  unfold get_key. cbn. destruct (st !! key) as [v|] eqn:Hk; cbn.
  - rewrite Hk. reflexivity.
  - reflexivity.
Qed.

Lemma run_delete_key key st :
  run (delete_key key) st =
    match st !! key with
    | Some _ => (inr (JObj [("success", JBool true); ("message", JStr "Key deleted successfully")]),
                 delete key st)
    | None => (inl (HTTP (KeyNotFoundError key)), st)
    end.
Proof.
  unfold delete_key. cbn. destruct (st !! key) as [v|] eqn:Hk; cbn.
  - rewrite Hk. reflexivity.
  - reflexivity.
Qed.

(** The same for the routes. *)

Lemma serve_POST key data st :
  serve (POST_keys key data) st =
    if bool_decide (key = ValueModel.key data)
    then ({| status := HTTP_201_CREATED;
             body := JObj [("success", JBool true); ("message", JStr "Value stored successfully")] |},
          <[key := ValueModel.value data]> st)
    else ({| status := HTTP_400_BAD_REQUEST;
             body := JObj [("detail", detail (KeyMismatchError key (ValueModel.key data)))] |}, st).
Proof. unfold serve. cbn [endpoint]. rewrite run_store_key. by case_bool_decide. Qed.

Lemma serve_PUT key data st :
  serve (PUT_keys key data) st =
    if bool_decide (key = ValueModel.key data)
    then ({| status := HTTP_200_OK;
             body := JObj [("success", JBool true); ("message", JStr "Value stored successfully")] |},
          <[key := ValueModel.value data]> st)
    else ({| status := HTTP_400_BAD_REQUEST;
             body := JObj [("detail", detail (KeyMismatchError key (ValueModel.key data)))] |}, st).
Proof. unfold serve. cbn [endpoint]. rewrite run_update_key. by case_bool_decide. Qed.

Lemma serve_GET key st :
  serve (GET_keys key) st =
    match st !! key with
    | Some v => ({| status := HTTP_200_OK;
                    body := JObj [("success", JBool true); ("key", JStr key); ("value", v)] |}, st)
    | None => ({| status := HTTP_404_NOT_FOUND;
                  body := JObj [("detail", detail (KeyNotFoundError key))] |}, st)
    end.
Proof. unfold serve. cbn [endpoint]. rewrite run_get_key. by destruct (st !! key). Qed.

Lemma serve_DELETE key st :
  serve (DELETE_keys key) st =
    match st !! key with
    | Some _ => ({| status := HTTP_200_OK;
                    body := JObj [("success", JBool true); ("message", JStr "Key deleted successfully")] |},
                 delete key st)
    | None => ({| status := HTTP_404_NOT_FOUND;
                  body := JObj [("detail", detail (KeyNotFoundError key))] |}, st)
    end.
Proof. unfold serve. cbn [endpoint]. rewrite run_delete_key. by destruct (st !! key). Qed.

End Sequential.

(** The scripted workflows of the test suite, served one request after the
    other from the empty store. *)

Example full_crud_workflow :
  serial [POST_keys "workflow_test" (ValueModel.Build "workflow_test" (JStr "initial_value"));
          GET_keys "workflow_test";
          PUT_keys "workflow_test" (ValueModel.Build "workflow_test" (JStr "updated_value"));
          GET_keys "workflow_test";
          DELETE_keys "workflow_test";
          GET_keys "workflow_test"] ∅ =
    ([inr (JObj [("success", JBool true); ("message", JStr "Value stored successfully")]);
      inr (JObj [("success", JBool true); ("key", JStr "workflow_test");
                 ("value", JStr "initial_value")]);
      inr (JObj [("success", JBool true); ("message", JStr "Value stored successfully")]);
      inr (JObj [("success", JBool true); ("key", JStr "workflow_test");
                 ("value", JStr "updated_value")]);
      inr (JObj [("success", JBool true); ("message", JStr "Key deleted successfully")]);
      inl (HTTP (KeyNotFoundError "workflow_test"))],
     ∅).
Proof. vm_compute. reflexivity. Qed.

Example store_key_mismatch :
  serve (POST_keys "pathkey" mismatch_body) ∅ =
    ({| status := 400;
        body := JObj [("detail",
                  JObj [("success", JBool false);
                        ("error", JStr "Key in path 'pathkey' does not match key in body 'bodykey'")])] |},
     ∅).
Proof. vm_compute. reflexivity. Qed.

Example get_key_not_found :
  serve (GET_keys "nonexistent") ∅ =
    ({| status := 404;
        body := JObj [("detail",
                  JObj [("success", JBool false);
                        ("error", JStr "Key 'nonexistent' not found")])] |},
     ∅).
Proof. vm_compute. reflexivity. Qed.

(** A caller that asks for the lock while another holds it has no move. *)
Example second_caller_waits :
  exec [0; 0; 1; 1]%nat (init ∅ (posts two_writers)) = None.
Proof. vm_compute. reflexivity. Qed.

(** * Properties of the store, one caller at a time *)

Section StoreProperties.
Implicit Types (key k : string) (data : ValueModel.t) (v : json).
Implicit Types (st : gmap string json) (put : Request).

(** C1 (round trip).  For every non-empty key [k] and every JSON value [v],
    a write of [(k, v)] through POST or PUT with the body key equal to the
    path key, followed by GET on [k], answers 200 with exactly [v] as the
    ["value"] member, whatever [v] is made of. *)
Theorem put_get_roundtrip k v st put :
  k ≠ "" →
  put = POST_keys k (ValueModel.Build k v) ∨ put = PUT_keys k (ValueModel.Build k v) →
  serve (GET_keys k) (serve put st).2 =
    ({| status := HTTP_200_OK;
        body := JObj [("success", JBool true); ("key", JStr k); ("value", v)] |},
     (serve put st).2).
Proof.
  intros _ [-> | ->]; rewrite ?serve_POST, ?serve_PUT;
    rewrite bool_decide_eq_true_2 by reflexivity;
    rewrite serve_GET; cbn; by rewrite lookup_insert_eq.
Qed.

(** C2 (overwrite).  Two writes to the same key, by either verb, followed by
    GET: the answer carries the second value, and the store is the one the
    second write alone would have produced. *)
Theorem put_put_get_latest k v1 v2 st put1 put2 :
  put1 = POST_keys k (ValueModel.Build k v1) ∨ put1 = PUT_keys k (ValueModel.Build k v1) →
  put2 = POST_keys k (ValueModel.Build k v2) ∨ put2 = PUT_keys k (ValueModel.Build k v2) →
  let st2 := (serve put2 (serve put1 st).2).2 in
  serve (GET_keys k) st2 =
    ({| status := HTTP_200_OK;
        body := JObj [("success", JBool true); ("key", JStr k); ("value", v2)] |}, st2)
  ∧ st2 = (serve put2 st).2.
Proof.
  intros [-> | ->] [-> | ->]; cbn zeta;
    repeat progress
      (rewrite ?serve_POST, ?serve_PUT;
       rewrite ?bool_decide_eq_true_2 by reflexivity; cbn [fst snd]);
    rewrite serve_GET; cbn;
    by rewrite lookup_insert_eq, insert_insert_eq.
Qed.

(** C3 (delete).  On a present key DELETE answers 200 and the key is gone;
    on an absent key it raises [KeyNotFoundError] (404) and the store is the
    same as before, and so does a second DELETE, whether the key was never
    written or has just been deleted. *)
Theorem delete_key_present_absent k st :
  (is_Some (st !! k) →
     serve (DELETE_keys k) st =
       ({| status := HTTP_200_OK;
           body := JObj [("success", JBool true); ("message", JStr "Key deleted successfully")] |},
        delete k st)
     ∧ delete k st !! k = None
     ∧ (run (delete_key k) (delete k st)).1 = inl (HTTP (KeyNotFoundError k))
     ∧ status (serve (DELETE_keys k) (delete k st)).1 = HTTP_404_NOT_FOUND
     ∧ (serve (DELETE_keys k) (delete k st)).2 = delete k st)
  ∧ (st !! k = None →
     (run (delete_key k) st).1 = inl (HTTP (KeyNotFoundError k))
     ∧ status (serve (DELETE_keys k) st).1 = HTTP_404_NOT_FOUND
     ∧ (serve (DELETE_keys k) st).2 = st
     ∧ serve (DELETE_keys k) (serve (DELETE_keys k) st).2 = serve (DELETE_keys k) st).
Proof.
  split.
  - intros [v Hv]. rewrite run_delete_key, !serve_DELETE, Hv, lookup_delete_eq. done.
  - intros Hk. rewrite run_delete_key, !serve_DELETE, Hk. cbn. rewrite Hk. done.
Qed.

(** C4 (mismatch).  A write whose path key differs from its body key raises
    [KeyMismatchError] (400) before it performs any action on the lock or on
    the dictionary, so the store is as it was; a GET afterwards on the path
    key or on the body key is 404 when that key was absent before. *)
Theorem mismatch_rejected_before_mutation key data st put :
  key ≠ ValueModel.key data →
  put = POST_keys key data ∨ put = PUT_keys key data →
  endpoint put = Raise (HTTP (KeyMismatchError key (ValueModel.key data)))
  ∧ (run (endpoint put) st).1 = inl (HTTP (KeyMismatchError key (ValueModel.key data)))
  ∧ status (serve put st).1 = HTTP_400_BAD_REQUEST
  ∧ (serve put st).2 = st
  ∧ (∀ k, k = key ∨ k = ValueModel.key data → st !! k = None →
       (run (get_key k) (serve put st).2).1 = inl (HTTP (KeyNotFoundError k))
       ∧ status (serve (GET_keys k) (serve put st).2).1 = HTTP_404_NOT_FOUND).
Proof.
  intros Hne Hput.
  assert (Hraise : endpoint put = Raise (HTTP (KeyMismatchError key (ValueModel.key data)))).
  { destruct Hput as [-> | ->]; cbn [endpoint]; unfold store_key, update_key;
      rewrite bool_decide_eq_true_2 by done; reflexivity. }
  split; [exact Hraise|].
  destruct Hput as [-> | ->]; cbn [endpoint];
    rewrite ?run_store_key, ?run_update_key, ?serve_POST, ?serve_PUT;
    rewrite !bool_decide_eq_false_2 by done; cbn [fst snd status];
    (split_and!; [done..|]); intros k _ Hk;
    rewrite run_get_key, serve_GET, Hk; done.
Qed.

(** C5, as the claim has it, fails: the body of the 404 answer is not the
    flat object.  It is that object under a ["detail"] member. *)
Lemma error_body_is_not_flat :
  ¬ ∃ msg, body (serve (GET_keys "a") ∅).1 =
             JObj [("success", JBool false); ("error", JStr msg)].
Proof. intros [msg H]. vm_compute in H. discriminate H. Qed.

(** C5 (amended).  Every exception class of [models.py] carries the flat
    detail [{"success": false, "error": <string>}].  Whenever a handler
    raises, the response body is [{"detail": <that detail>}], and the
    exception is either [KeyNotFoundError] (404, GET or DELETE of an absent
    key, message [Key '<key>' not found]) or [KeyMismatchError] (400, POST
    or PUT, message [Key in path '<path_key>' does not match key in body
    '<body_key>']). *)
Theorem error_bodies_nest_flat_detail r st e :
  (run (endpoint r) st).1 = inl e →
  (∀ h : HTTPException,
     detail h = JObj [("success", JBool false); ("error", JStr (error_message h))])
  ∧ ∃ msg,
      body (serve r st).1 =
        JObj [("detail", JObj [("success", JBool false); ("error", JStr msg)])]
      ∧ ((∃ key, (r = GET_keys key ∨ r = DELETE_keys key)
            ∧ e = HTTP (KeyNotFoundError key)
            ∧ status (serve r st).1 = HTTP_404_NOT_FOUND
            ∧ msg = "Key '" +:+ key +:+ "' not found")
         ∨ (∃ path_key data, (r = POST_keys path_key data ∨ r = PUT_keys path_key data)
            ∧ e = HTTP (KeyMismatchError path_key (ValueModel.key data))
            ∧ status (serve r st).1 = HTTP_400_BAD_REQUEST
            ∧ msg = "Key in path '" +:+ path_key +:+ "' does not match key in body '"
                      +:+ ValueModel.key data +:+ "'")).
Proof.
  intros Hraise. split; [done|].
  destruct r as [|key data|key data|key|key]; cbn [endpoint] in Hraise.
  - discriminate Hraise.
  - rewrite run_store_key in Hraise. rewrite serve_POST.
    case_bool_decide; [discriminate Hraise|]. injection Hraise as <-.
    eexists; split; [reflexivity|]. right. exists key, data. auto.
  - rewrite run_update_key in Hraise. rewrite serve_PUT.
    case_bool_decide; [discriminate Hraise|]. injection Hraise as <-.
    eexists; split; [reflexivity|]. right. exists key, data. auto.
  - rewrite run_get_key in Hraise. rewrite serve_GET.
    destruct (st !! key); [discriminate Hraise|]. injection Hraise as <-.
    eexists; split; [reflexivity|]. left. exists key. auto.
  - rewrite run_delete_key in Hraise. rewrite serve_DELETE.
    destruct (st !! key); [discriminate Hraise|]. injection Hraise as <-.
    eexists; split; [reflexivity|]. left. exists key. auto.
Qed.

(** C6 (POST and PUT).  On every key, body and store, [store_key] and
    [update_key] run to the same outcome and the same store; the two routes
    answer with the same body, and with the same status except on success,
    where POST says 201 and PUT says 200. *)
Theorem store_key_update_key_same_effect key data st :
  run (store_key key data) st = run (update_key key data) st
  ∧ (serve (POST_keys key data) st).2 = (serve (PUT_keys key data) st).2
  ∧ body (serve (POST_keys key data) st).1 = body (serve (PUT_keys key data) st).1
  ∧ (if bool_decide (key = ValueModel.key data)
     then body (serve (POST_keys key data) st).1 =
            JObj [("success", JBool true); ("message", JStr "Value stored successfully")]
          ∧ status (serve (POST_keys key data) st).1 = HTTP_201_CREATED
          ∧ status (serve (PUT_keys key data) st).1 = HTTP_200_OK
     else status (serve (POST_keys key data) st).1 = status (serve (PUT_keys key data) st).1).
Proof.
  rewrite run_store_key, run_update_key, serve_POST, serve_PUT.
  by case_bool_decide.
Qed.

(** C7 (null is a value).  After [null] has been stored under [k], GET on
    [k] answers 200 with ["value": null]; on a store without [k] it raises
    [KeyNotFoundError] (404).  The two answers differ: [get_key] looks at
    membership in the dictionary, not at the value found. *)
Theorem null_value_is_present k st :
  let st' := (serve (POST_keys k (ValueModel.Build k JNull)) st).2 in
  serve (GET_keys k) st' =
    ({| status := HTTP_200_OK;
        body := JObj [("success", JBool true); ("key", JStr k); ("value", JNull)] |}, st')
  ∧ (run (get_key k) (delete k st)).1 = inl (HTTP (KeyNotFoundError k))
  ∧ status (serve (GET_keys k) (delete k st)).1 = HTTP_404_NOT_FOUND
  ∧ (serve (GET_keys k) st').1 ≠ (serve (GET_keys k) (delete k st)).1.
Proof.
  cbn zeta. rewrite serve_POST, bool_decide_eq_true_2 by reflexivity.
  rewrite run_get_key, !serve_GET. cbn.
  rewrite lookup_insert_eq, lookup_delete_eq. done.
Qed.

(** C8 (frame).  GET leaves the store as it found it, present key or not.
    POST, PUT and DELETE on [k] leave the binding of every other key as it
    was. *)
Theorem get_pure_put_delete_frame k k' data st :
  k' ≠ k →
  (serve (GET_keys k) st).2 = st
  ∧ (run (get_key k) st).2 = st
  ∧ (serve (POST_keys k data) st).2 !! k' = st !! k'
  ∧ (serve (PUT_keys k data) st).2 !! k' = st !! k'
  ∧ (serve (DELETE_keys k) st).2 !! k' = st !! k'.
Proof.
  intros Hne. rewrite serve_GET, run_get_key, serve_POST, serve_PUT, serve_DELETE.
  repeat split.
  - by destruct (st !! k).
  - by destruct (st !! k).
  - case_bool_decide; cbn; [by rewrite lookup_insert_ne|done].
  - case_bool_decide; cbn; [by rewrite lookup_insert_ne|done].
  - destruct (st !! k); cbn; [by rewrite lookup_delete_ne|done].
Qed.

(** C10 (the empty key).  Nothing checks that a key is non-empty.  With an
    empty path key and an empty body key, [store_key] succeeds (201) and
    binds [""] to the value; GET on [""] then answers 200 with that value
    and DELETE answers 200 and removes it; on a store without [""] both
    raise the ordinary [KeyNotFoundError] (404).  No 400 or 422 arises. *)
Theorem empty_key_is_accepted v st :
  let st' := <["" := v]> st in
  serve (POST_keys "" (ValueModel.Build "" v)) st =
    ({| status := HTTP_201_CREATED;
        body := JObj [("success", JBool true); ("message", JStr "Value stored successfully")] |},
     st')
  ∧ st' !! "" = Some v
  ∧ serve (GET_keys "") st' =
      ({| status := HTTP_200_OK;
          body := JObj [("success", JBool true); ("key", JStr ""); ("value", v)] |}, st')
  ∧ serve (DELETE_keys "") st' =
      ({| status := HTTP_200_OK;
          body := JObj [("success", JBool true); ("message", JStr "Key deleted successfully")] |},
       delete "" st)
  ∧ (run (get_key "") (delete "" st)).1 = inl (HTTP (KeyNotFoundError ""))
  ∧ (run (delete_key "") (delete "" st)).1 = inl (HTTP (KeyNotFoundError "")).
Proof.
  cbn zeta. rewrite serve_POST, bool_decide_eq_true_2 by reflexivity.
  rewrite serve_GET, serve_DELETE, run_get_key, run_delete_key. cbn.
  rewrite lookup_insert_eq, lookup_delete_eq, delete_insert_eq. done.
Qed.

End StoreProperties.

(** * The properties at the values of the test suite *)

Lemma put_get_roundtrip_witness :
  "complex" ≠ ""
  ∧ serve (GET_keys "complex")
      (serve (POST_keys "complex" (ValueModel.Build "complex" complex_value)) ∅).2 =
      ({| status := HTTP_200_OK;
          body := JObj [("success", JBool true); ("key", JStr "complex");
                        ("value", complex_value)] |},
       (serve (POST_keys "complex" (ValueModel.Build "complex" complex_value)) ∅).2).
Proof.
  split; [discriminate|].
  apply put_get_roundtrip; [discriminate | left; reflexivity].
Defined.

Lemma put_put_get_latest_witness :
  serve (GET_keys "testkey")
    (serve (PUT_keys "testkey" (ValueModel.Build "testkey" (JStr "updated")))
       (serve (POST_keys "testkey" (ValueModel.Build "testkey" (JStr "initial"))) ∅).2).2 =
    ({| status := HTTP_200_OK;
        body := JObj [("success", JBool true); ("key", JStr "testkey");
                      ("value", JStr "updated")] |},
     (serve (PUT_keys "testkey" (ValueModel.Build "testkey" (JStr "updated")))
        (serve (POST_keys "testkey" (ValueModel.Build "testkey" (JStr "initial"))) ∅).2).2).
Proof.
  apply (put_put_get_latest "testkey" (JStr "initial") (JStr "updated") ∅);
    [left; reflexivity | right; reflexivity].
Defined.

Lemma delete_key_present_absent_witness :
  (is_Some (({["testkey" := JStr "testvalue"]} : gmap string json) !! "testkey")
   ∧ serve (DELETE_keys "testkey") {["testkey" := JStr "testvalue"]} =
       ({| status := HTTP_200_OK;
           body := JObj [("success", JBool true); ("message", JStr "Key deleted successfully")] |},
        delete "testkey" {["testkey" := JStr "testvalue"]}))
  ∧ ((∅ : gmap string json) !! "nonexistent" = None
     ∧ status (serve (DELETE_keys "nonexistent") ∅).1 = HTTP_404_NOT_FOUND).
Proof.
  split.
  - assert (Hin : is_Some (({["testkey" := JStr "testvalue"]} : gmap string json) !! "testkey"))
      by (vm_compute; eauto).
    split; [exact Hin|].
    exact (proj1 (proj1 (delete_key_present_absent "testkey" _) Hin)).
  - assert (Hout : (∅ : gmap string json) !! "nonexistent" = None) by reflexivity.
    split; [exact Hout|].
    exact (proj1 (proj2 (proj2 (delete_key_present_absent "nonexistent" ∅) Hout))).
Defined.

Lemma mismatch_rejected_before_mutation_witness :
  "pathkey" ≠ ValueModel.key mismatch_body
  ∧ status (serve (POST_keys "pathkey" mismatch_body) ∅).1 = HTTP_400_BAD_REQUEST
  ∧ (serve (POST_keys "pathkey" mismatch_body) ∅).2 = ∅.
Proof.
  assert (Hne : "pathkey" ≠ ValueModel.key mismatch_body) by (vm_compute; discriminate).
  split; [exact Hne|].
  destruct (mismatch_rejected_before_mutation "pathkey" mismatch_body ∅
              (POST_keys "pathkey" mismatch_body) Hne (or_introl eq_refl))
    as (_ & _ & Hstatus & Hstore & _).
  exact (conj Hstatus Hstore).
Defined.

Lemma error_bodies_nest_flat_detail_witness :
  (run (endpoint (GET_keys "nonexistent")) ∅).1 = inl (HTTP (KeyNotFoundError "nonexistent"))
  ∧ ∃ msg,
      body (serve (GET_keys "nonexistent") ∅).1 =
        JObj [("detail", JObj [("success", JBool false); ("error", JStr msg)])].
Proof.
  assert (Hraise : (run (endpoint (GET_keys "nonexistent")) ∅).1
                   = inl (HTTP (KeyNotFoundError "nonexistent"))) by reflexivity.
  split; [exact Hraise|].
  destruct (error_bodies_nest_flat_detail (GET_keys "nonexistent") ∅ _ Hraise)
    as (_ & msg & Hbody & _).
  exists msg. exact Hbody.
Defined.

Lemma get_pure_put_delete_frame_witness :
  "other" ≠ "testkey"
  ∧ (serve (DELETE_keys "testkey")
       {["testkey" := JStr "testvalue"; "other" := JInt 1]}).2 !! "other" =
      ({["testkey" := JStr "testvalue"; "other" := JInt 1]} : gmap string json) !! "other".
Proof.
  assert (Hne : "other" ≠ "testkey") by discriminate.
  split; [exact Hne|].
  exact (proj2 (proj2 (proj2 (proj2
           (get_pure_put_delete_frame "testkey" "other" mismatch_body _ Hne))))).
Defined.

(** * Concurrent execution: the invariant holds along every schedule *)

Section Discipline.
Context {A : Type}.
Implicit Types (p : prog A) (st : gmap string json).

Lemma run_finish p o st : finish p = Some o → run p st = (o, st).
Proof. destruct p; cbn; intros [= <-]; reflexivity. Qed.

Lemma inside_not_finished p : inside p → finish p = None.
Proof. by destruct p. Qed.

End Discipline.

Lemma outside_endpoint r : outside (endpoint r).
Proof.
  destruct r as [|key data|key data|key|key]; cbn [endpoint].
  - exact I.
  - unfold store_key. case_bool_decide; cbn; [exact I|eauto].
  - unfold update_key. case_bool_decide; cbn; [exact I|eauto].
  - unfold get_key. cbn. intros [|]; cbn; [intros [v|]; cbn|]; eauto.
  - unfold delete_key. cbn. intros [|]; cbn; [intros [|]; cbn|]; eauto.
Qed.

Lemma erase_snoc_ev ms e : erase (ms ++ [Ev e]) = erase ms ++ [e].
Proof. unfold erase. by rewrite omap_app. Qed.

Lemma erase_snoc_commit ms t r o : erase (ms ++ [Commit t r o]) = erase ms.
Proof. unfold erase. rewrite omap_app. cbn. by rewrite app_nil_r. Qed.

Lemma commits_snoc_ev ms e : commits (ms ++ [Ev e]) = commits ms.
Proof. unfold commits. rewrite omap_app. cbn. by rewrite app_nil_r. Qed.

Lemma commits_snoc_commit ms t r o : commits (ms ++ [Commit t r o]) = commits ms ++ [(r, o)].
Proof. unfold commits. by rewrite omap_app. Qed.

Lemma serial_snoc rs r st os st' :
  serial rs st = (os, st') →
  serial (rs ++ [r]) st = (os ++ [(run (endpoint r) st').1], (run (endpoint r) st').2).
Proof.
  revert st os st'. induction rs as [|r0 rs IH]; intros st os st'; cbn.
  - intros [= <- <-]. by destruct (run (endpoint r) st).
  - destruct (run (endpoint r0) st) as [o0 st1].
    destruct (serial rs st1) as [os1 st2] eqn:Hs. intros [= <- <-].
    by rewrite (IH _ _ _ Hs).
Qed.

Lemma owed_split (cs : list caller) t th :
  cs !! t = Some th →
  ∃ rest, concat (owed <$> cs) ≡ₚ owed th ++ rest
          ∧ ∀ th', concat (owed <$> <[t := th']> cs) ≡ₚ owed th' ++ rest.
Proof.
  intros Ht. exists (concat (owed <$> take t cs) ++ concat (owed <$> drop (S t) cs)). split.
  - rewrite <- (take_drop_middle cs t th Ht) at 1.
    rewrite fmap_app, concat_app, fmap_cons. cbn [concat].
    apply Permutation_app_swap_app.
  - intros th'. rewrite insert_take_drop by (eapply lookup_lt_Some; eauto).
    rewrite fmap_app, concat_app, fmap_cons. cbn [concat].
    apply Permutation_app_swap_app.
Qed.

Lemma caller_ok_frame st lk abs ph t th st' lk' abs' ph' :
  caller_ok st lk abs ph t th →
  ph' t = ph t → owner lk ≠ Some t → owner lk' ≠ Some t →
  caller_ok st' lk' abs' ph' t th.
Proof.
  unfold caller_ok. intros Hok Hph Hlk Hlk'. rewrite Hph.
  destruct (running th) as [[r p]|]; [destruct (finish p)|].
  - naive_solver.
  - destruct Hok as [? [[? ?] | [-> _]]]; [auto | by destruct Hlk].
  - naive_solver.
Qed.

Lemma coherent_init st0 pool : coherent st0 pool (init st0 pool) [] (λ _, Idle) st0.
Proof.
  split; cbn; try done.
  - constructor.
  - intros t th [rs [-> _]]%list_lookup_fmap_Some. by unfold caller_ok.
  - induction pool as [|rs pool IH]; cbn; [done|]. by rewrite IH.
Qed.

Lemma coherent_update st0 pool c ms ph abs t th c' ms' ph' abs' th' :
  coherent st0 pool c ms ph abs →
  callers c !! t = Some th →
  callers c' = <[t := th']> (callers c) →
  erase ms' = history c' →
  protocol ms' ph' →
  serial (commits ms').*1 st0 = ((commits ms').*2, abs') →
  (∀ t', t' ≠ t → ph' t' = ph t') →
  (storage_lock c' = None → storage c' = abs') →
  caller_ok (storage c') (storage_lock c') abs' ph' t th' →
  (∀ n, storage_lock c' = Some (t, n) →
     n = 0%nat ∧ ∃ r p, running th' = Some (r, p) ∧ inside p) →
  (storage c' = storage c ∧ storage_lock c' = storage_lock c ∧ abs' = abs)
  ∨ ((owner (storage_lock c) = None ∨ owner (storage_lock c) = Some t)
     ∧ (owner (storage_lock c') = None ∨ owner (storage_lock c') = Some t)) →
  (commits ms').*1 ++ owed th' ≡ₚ (commits ms).*1 ++ owed th →
  coherent st0 pool c' ms' ph' abs'.
Proof.
  intros Hc Ht Hcs Hh Hp Hs Hph Hfree Hok Hown Hothers Howed.
  assert (Hlt : (t < length (callers c))%nat) by (eapply lookup_lt_Some; eauto).
  split; try done.
  - intros o n Hlk. destruct (decide (o = t)) as [->|Hne].
    + destruct (Hown n Hlk) as (-> & r & p & Hr & Hin). split; [done|].
      exists th', r, p. rewrite Hcs, list_lookup_insert_eq by done. done.
    + destruct Hothers as [(_ & Hlk' & _) | [_ Hnew]].
      * rewrite Hlk' in Hlk. destruct (coh_owner _ _ _ _ _ _ Hc o n Hlk) as (-> & tho & r & p & ? & ? & ?).
        split; [done|]. exists tho, r, p. by rewrite Hcs, list_lookup_insert_ne.
      * rewrite Hlk in Hnew. cbn in Hnew. naive_solver.
  - intros t' th''. rewrite Hcs. destruct (decide (t' = t)) as [->|Hne].
    + rewrite list_lookup_insert_eq by done. by intros [= <-].
    + rewrite list_lookup_insert_ne by done. intros Ht'.
      pose proof (coh_callers _ _ _ _ _ _ Hc t' th'' Ht') as Hok'.
      destruct Hothers as [(-> & -> & ->) | [Hold Hnew]].
      * unfold caller_ok in *. by rewrite (Hph t' Hne).
      * eapply caller_ok_frame; [exact Hok'|by apply Hph|naive_solver..].
  - destruct (owed_split (callers c) t th Ht) as (rest & Hrest & Hrest').
    rewrite Hcs, Hrest', app_assoc, Howed, <- app_assoc, <- Hrest.
    apply (coh_owed _ _ _ _ _ _ Hc).
Qed.

(** A move that adds no mark: the ghost state stays as it is. *)
Lemma coherent_silent st0 pool c ms ph abs t th c' th' :
  coherent st0 pool c ms ph abs →
  callers c !! t = Some th →
  callers c' = <[t := th']> (callers c) →
  history c' = history c →
  (storage_lock c' = None → storage c' = abs) →
  caller_ok (storage c') (storage_lock c') abs ph t th' →
  (∀ n, storage_lock c' = Some (t, n) →
     n = 0%nat ∧ ∃ r p, running th' = Some (r, p) ∧ inside p) →
  (owner (storage_lock c) = None ∨ owner (storage_lock c) = Some t)
  ∧ (owner (storage_lock c') = None ∨ owner (storage_lock c') = Some t) →
  owed th' = owed th →
  coherent st0 pool c' ms ph abs.
Proof.
  intros Hc Ht Hcs Hh Hfree Hok Hown Hothers Howed.
  eapply coherent_update; try done.
  - by rewrite Hh, (coh_history _ _ _ _ _ _ Hc).
  - apply (coh_protocol _ _ _ _ _ _ Hc).
  - apply (coh_serial _ _ _ _ _ _ Hc).
  - by right.
  - by rewrite Howed.
Qed.

(** A move of a caller that does not hold the lock and touches neither the
    lock nor the dictionary: an invocation or a return. *)
Lemma coherent_local st0 pool c ms ph abs t th c' ms' ph' th' :
  coherent st0 pool c ms ph abs →
  callers c !! t = Some th →
  owner (storage_lock c) ≠ Some t →
  callers c' = <[t := th']> (callers c) →
  storage c' = storage c →
  storage_lock c' = storage_lock c →
  erase ms' = history c' →
  protocol ms' ph' →
  serial (commits ms').*1 st0 = ((commits ms').*2, abs) →
  (∀ t', t' ≠ t → ph' t' = ph t') →
  caller_ok (storage c) (storage_lock c) abs ph' t th' →
  (commits ms').*1 ++ owed th' ≡ₚ (commits ms).*1 ++ owed th →
  coherent st0 pool c' ms' ph' abs.
Proof.
  intros Hc Ht Hfree Hcs Hst Hlk Hh Hp Hs Hph Hok Howed.
  eapply coherent_update; try done.
  - rewrite Hst, Hlk. apply (coh_free _ _ _ _ _ _ Hc).
  - by rewrite Hst, Hlk.
  - rewrite Hlk. intros n Hheld. rewrite Hheld in Hfree. by destruct Hfree.
  - by left.
Qed.

Lemma step_thread_return t c th r p o :
  callers c !! t = Some th →
  running th = Some (r, p) →
  finish p = Some o →
  step_thread t c =
    Some {| storage := storage c; storage_lock := storage_lock c;
            callers := <[t := {| todo := todo th; running := None |}]> (callers c);
            history := history c ++ [Return t r o] |}.
Proof.
  intros Ht Hr Ho. unfold step_thread. rewrite Ht. cbn. rewrite Hr.
  destruct p; cbn in Ho; try discriminate; by injection Ho as <-.
Qed.

Lemma step_coherent st0 pool c ms ph abs t c' :
  coherent st0 pool c ms ph abs →
  step_thread t c = Some c' →
  ∃ ms' ph' abs', coherent st0 pool c' ms' ph' abs'.
Proof.
  intros Hc Hstep.
  destruct (callers c !! t) as [th|] eqn:Ht;
    [|unfold step_thread in Hstep; by rewrite Ht in Hstep].
  pose proof (coh_callers _ _ _ _ _ _ Hc t th Ht) as Hok. unfold caller_ok in Hok.
  destruct (running th) as [[r p]|] eqn:Hr; [destruct (finish p) as [o|] eqn:Hfin|].
  - (* the call in flight has its result: it returns *)
    rewrite (step_thread_return _ _ _ _ _ _ Ht Hr Hfin) in Hstep.
    injection Hstep as <-. destruct Hok as [Hph Hfree].
    exists (ms ++ [Ev (Return t r o)]), (<[t := Idle]> ph), abs.
    eapply coherent_local; [exact Hc | exact Ht | exact Hfree | done..| | | | | |]; cbn.
    + by rewrite erase_snoc_ev, (coh_history _ _ _ _ _ _ Hc).
    + apply protocol_return; [apply (coh_protocol _ _ _ _ _ _ Hc) | exact Hph].
    + rewrite commits_snoc_ev. apply (coh_serial _ _ _ _ _ _ Hc).
    + intros t' Hne. by rewrite fn_lookup_insert_ne.
    + unfold caller_ok; cbn. by rewrite fn_lookup_insert.
    + rewrite commits_snoc_ev. unfold owed. cbn. by rewrite Hr, Hfin.
  - (* the call in flight performs its next action *)
    unfold step_thread in Hstep. rewrite Ht in Hstep. cbn in Hstep. rewrite Hr in Hstep.
    destruct p as [| |X a k]; [done..|].
    assert (Howed : ∀ x, inside (k x) →
              owed {| todo := todo th; running := Some (r, k x) |} = owed th).
    { intros x Hx. unfold owed. cbn. by rewrite Hr, (inside_not_finished _ Hx). }
    destruct Hok as [Hph [[Heq Hfree] | (Hlk & Hin & Hrun)]].
    + (* a fresh call: the action is the acquisition, and the lock is free *)
      pose proof (outside_endpoint r) as Hout. rewrite <- Heq in Hout.
      destruct a; cbn in Hout; try done. cbn in Hstep.
      destruct (storage_lock c) as [[o n]|] eqn:Hlk; cbn in Hstep.
      { case_decide; [subst o; by destruct Hfree | discriminate]. }
      injection Hstep as <-. exists ms, ph, abs.
      eapply coherent_silent; [exact Hc | exact Ht | done..| | | | ]; cbn.
      * unfold caller_ok; cbn. rewrite (inside_not_finished _ Hout).
        split; [done|]. right. split_and!; [done..|].
        rewrite <- Heq. cbn. by rewrite (coh_free _ _ _ _ _ _ Hc Hlk).
      * intros n [= <-]. eauto.
      * rewrite Hlk. cbn. auto.
      * by apply Howed.
    + (* inside the block *)
      destruct a; cbn in Hin; try done; cbn in Hstep.
      1: { (* the release is the commit point *)
        rewrite Hlk in Hstep. cbn in Hstep. case_decide; [|done].
        injection Hstep as <-. destruct Hin as [o Ho].
        exists (ms ++ [Commit t r o]), (<[t := Committed r o]> ph), (storage c).
        eapply coherent_update; [exact Hc | exact Ht | reflexivity | ..]; cbn.
        - by rewrite erase_snoc_commit, (coh_history _ _ _ _ _ _ Hc).
        - apply protocol_commit; [apply (coh_protocol _ _ _ _ _ _ Hc) | exact Hph].
        - rewrite commits_snoc_commit, !fmap_app. cbn.
          rewrite (serial_snoc _ r _ _ _ (coh_serial _ _ _ _ _ _ Hc)).
          rewrite <- Hrun. cbn. by rewrite (run_finish _ _ _ Ho).
        - intros t' Hne. by rewrite fn_lookup_insert_ne.
        - done.
        - unfold caller_ok; cbn. rewrite Ho. by rewrite fn_lookup_insert.
        - done.
        - right. rewrite Hlk. cbn. auto.
        - rewrite commits_snoc_commit, fmap_app. unfold owed. cbn.
          rewrite Hr, Ho. cbn. by rewrite <- app_assoc. }
      (* the four dictionary actions *)
      all: injection Hstep as <-; exists ms, ph, abs.
      all: eapply coherent_silent; [exact Hc | exact Ht | reflexivity | reflexivity | ..]; cbn.
      all: try (by rewrite Hlk).
      all: try (by apply Howed).
      all: try (rewrite Hlk; intros n [= <-]; by eauto).
      all: try (rewrite Hlk; cbn; by auto).
      all: unfold caller_ok; cbn; rewrite (inside_not_finished _ (Hin _)); by auto.
  - (* an idle caller starts its next call *)
    unfold step_thread in Hstep. rewrite Ht in Hstep. cbn in Hstep. rewrite Hr in Hstep.
    destruct (todo th) as [|r rest] eqn:Htd; [discriminate|]. injection Hstep as <-.
    destruct Hok as [Hph Hfree].
    assert (Howe : owed th = r :: rest) by (unfold owed; by rewrite Hr, Htd).
    destruct (finish (endpoint r)) as [o|] eqn:Hfin.
    + (* the handler takes no lock: the call commits at once *)
      exists ((ms ++ [Ev (Invoke t r)]) ++ [Commit t r o]),
        (<[t := Committed r o]> (<[t := Invoked r]> ph)), abs.
      eapply coherent_local; [exact Hc | exact Ht | exact Hfree | done..| | | | | |]; cbn.
      * by rewrite erase_snoc_commit, erase_snoc_ev, (coh_history _ _ _ _ _ _ Hc).
      * apply protocol_commit; [apply protocol_invoke|];
          [apply (coh_protocol _ _ _ _ _ _ Hc) | exact Hph | by rewrite fn_lookup_insert].
      * rewrite commits_snoc_commit, commits_snoc_ev, !fmap_app. cbn.
        rewrite (serial_snoc _ r _ _ _ (coh_serial _ _ _ _ _ _ Hc)).
        by rewrite (run_finish _ _ _ Hfin).
      * intros t' Hne. by rewrite !fn_lookup_insert_ne.
      * unfold caller_ok; cbn. rewrite Hfin. by rewrite fn_lookup_insert.
      * rewrite commits_snoc_commit, commits_snoc_ev, fmap_app, Howe. unfold owed. cbn.
        rewrite Hfin. cbn. by rewrite <- app_assoc.
    + exists (ms ++ [Ev (Invoke t r)]), (<[t := Invoked r]> ph), abs.
      eapply coherent_local; [exact Hc | exact Ht | exact Hfree | done..| | | | | |]; cbn.
      * by rewrite erase_snoc_ev, (coh_history _ _ _ _ _ _ Hc).
      * apply protocol_invoke; [apply (coh_protocol _ _ _ _ _ _ Hc) | exact Hph].
      * rewrite commits_snoc_ev. apply (coh_serial _ _ _ _ _ _ Hc).
      * intros t' Hne. by rewrite fn_lookup_insert_ne.
      * unfold caller_ok; cbn. rewrite Hfin, fn_lookup_insert. auto.
      * rewrite commits_snoc_ev, Howe. unfold owed. cbn. by rewrite Hfin.
Qed.

Lemma exec_coherent st0 pool sched c ms ph abs c' :
  coherent st0 pool c ms ph abs →
  exec sched c = Some c' →
  ∃ ms' ph' abs', coherent st0 pool c' ms' ph' abs'.
Proof.
  revert c ms ph abs. induction sched as [|t sched IH]; intros c ms ph abs Hc; cbn.
  - intros [= <-]. eauto.
  - destruct (step_thread t c) as [c1|] eqn:Hstep; [|discriminate]. cbn.
    destruct (step_coherent _ _ _ _ _ _ _ _ Hc Hstep) as (ms1 & ph1 & abs1 & Hc1).
    eauto.
Qed.

(** No caller is ever left without a move while work remains. *)
Lemma coherent_progress st0 pool c ms ph abs :
  coherent st0 pool c ms ph abs →
  finished c ∨ ∃ t c', step_thread t c = Some c'.
Proof.
  intros Hc. destruct (storage_lock c) as [[o n]|] eqn:Hlk.
  - right. destruct (coh_owner _ _ _ _ _ _ Hc o n Hlk) as (-> & th & r & p & Ho & Hr & Hin).
    exists o. unfold step_thread. rewrite Ho. cbn. rewrite Hr.
    destruct p as [| |X a k]; [done..|]. rewrite Hlk.
    destruct a; cbn in Hin |- *; [done| |eauto..].
    rewrite decide_True by done. cbn. eauto.
  - assert (Hdec : ∀ th, {todo th = [] ∧ running th = None}
                          + {¬ (todo th = [] ∧ running th = None)}).
    { intros th. destruct (todo th), (running th); (by left) || (right; by intros [? ?]). }
    destruct (Forall_Exists_dec _ _ Hdec (callers c)) as [Hall|Hex]; [by left|].
    right. apply Exists_exists in Hex as (th & Hth & Hbusy).
    apply list_elem_of_lookup in Hth as [t Ht]. exists t.
    pose proof (coh_callers _ _ _ _ _ _ Hc t th Ht) as Hok.
    unfold step_thread, caller_ok in *. rewrite Ht. cbn.
    destruct (running th) as [[r p]|] eqn:Hr.
    + destruct p as [b|e|X a k]; [eauto..|]. cbn in Hok.
      destruct Hok as [_ [[Heq _] | [Hheld _]]]; [|congruence].
      pose proof (outside_endpoint r) as Hout. rewrite <- Heq in Hout.
      destruct a; cbn in Hout; try done. rewrite Hlk. cbn. eauto.
    + destruct (todo th) as [|r rest]; [by destruct Hbusy|eauto].
Qed.

Lemma within_endpoint r : within 4 (endpoint r).
Proof.
  destruct r as [|key data|key data|key|key]; cbn [endpoint].
  - exact I.
  - unfold store_key. case_bool_decide; cbn; [exact I|done].
  - unfold update_key. case_bool_decide; cbn; [exact I|done].
  - unfold get_key. cbn. intros _ [|]; cbn; [intros [v|]; cbn|]; done.
  - unfold delete_key. cbn. intros _ [|]; cbn; [intros [|]; cbn|]; done.
Qed.

Lemma sum_list_insert_lt (ns : list nat) t n n' :
  ns !! t = Some n → (n' < n)%nat → (sum_list (<[t := n']> ns) < sum_list ns)%nat.
Proof.
  intros Ht Hlt. rewrite insert_take_drop by (eapply lookup_lt_Some; eauto).
  rewrite <- (take_drop_middle ns t n Ht) at 3.
  rewrite !sum_list_with_app. cbn. lia.
Qed.

Lemma step_fuel c ns t c' :
  Forall2 caller_fuel (callers c) ns →
  step_thread t c = Some c' →
  ∃ ns', Forall2 caller_fuel (callers c') ns' ∧ (sum_list ns' < sum_list ns)%nat.
Proof.
  intros Hf Hstep. unfold step_thread in Hstep.
  destruct (callers c !! t) as [th|] eqn:Ht; [|discriminate]. cbn in Hstep.
  destruct (Forall2_lookup_l _ _ _ _ _ Hf Ht) as (n & Hn & Hth).
  assert (Hgoal : ∀ th' n', caller_fuel th' n' → (n' < n)%nat →
            ∃ ns', Forall2 caller_fuel (<[t := th']> (callers c)) ns'
                   ∧ (sum_list ns' < sum_list ns)%nat).
  { intros th' n' Hth' Hlt. exists (<[t := n']> ns). split.
    - by apply Forall2_insert.
    - by eapply sum_list_insert_lt. }
  unfold caller_fuel in Hth. destruct th as [td [[r p]|]]; cbn in Hstep, Hth.
  - destruct Hth as (h & Hh & Hle & ->).
    destruct p as [b|e|X a k].
    + injection Hstep as <-. cbn. apply (Hgoal _ (6 * length td)%nat); [done|lia].
    + injection Hstep as <-. cbn. apply (Hgoal _ (6 * length td)%nat); [done|lia].
    + destruct (perform_at t a (storage c) (storage_lock c)) as [[[x st'] lk']|];
        [|discriminate]. injection Hstep as <-. cbn.
      destruct h as [|h]; [done|]. cbn in Hh.
      apply (Hgoal _ (6 * length td + S h)%nat); [|lia].
      exists h. split_and!; [apply Hh | lia | done].
  - destruct td as [|r rest]; [discriminate|]. injection Hstep as <-. cbn.
    subst n. apply (Hgoal _ (6 * length rest + 5)%nat); [|cbn [length]; lia].
    exists 4%nat. split_and!; [apply within_endpoint | done | done].
Qed.

Lemma exec_fuel sched c ns c' :
  Forall2 caller_fuel (callers c) ns →
  exec sched c = Some c' →
  ∃ ns', Forall2 caller_fuel (callers c') ns'
         ∧ (length sched + sum_list ns' ≤ sum_list ns)%nat.
Proof.
  revert c ns. induction sched as [|t sched IH]; intros c ns Hf; cbn.
  - intros [= <-]. exists ns. split; [done|lia].
  - destruct (step_thread t c) as [c1|] eqn:Hstep; [|discriminate]. cbn. intros Hexec.
    destruct (step_fuel _ _ _ _ Hf Hstep) as (ns1 & Hf1 & Hlt).
    destruct (IH _ _ Hf1 Hexec) as (ns' & Hf' & Hle).
    exists ns'. split; [done|lia].
Qed.

Lemma init_fuel st0 pool :
  ∃ ns, Forall2 caller_fuel (callers (init st0 pool)) ns
        ∧ sum_list ns = (6 * length (concat pool))%nat.
Proof.
  cbn. induction pool as [|rs pool (ns & Hf & Hsum)]; cbn.
  - exists []. split; [constructor|done].
  - exists ((6 * length rs)%nat :: ns). split; [by constructor|].
    cbn. rewrite Hsum, length_app. lia.
Qed.

Lemma protocol_return_committed ms ph :
  protocol ms ph →
  (∀ t r o, Ev (Return t r o) ∈ ms → Commit t r o ∈ ms)
  ∧ (∀ t r o, ph t = Committed r o → Commit t r o ∈ ms).
Proof.
  induction 1 as [|ms ph t r Hp [IH1 IH2] Hph|ms ph t r o Hp [IH1 IH2] Hph
                  |ms ph t r o Hp [IH1 IH2] Hph].
  - split; [intros t r o Hin; by apply elem_of_nil in Hin | done].
  - split; intros t' r' o'.
    + rewrite !elem_of_app, !list_elem_of_singleton. intros [Hin | [=]]. left. eauto.
    + destruct (decide (t = t')) as [->|Hne].
      * by rewrite fn_lookup_insert.
      * rewrite fn_lookup_insert_ne, elem_of_app by done. eauto.
  - split; intros t' r' o'.
    + rewrite !elem_of_app, !list_elem_of_singleton. intros [Hin | [=]]. left. eauto.
    + destruct (decide (t = t')) as [->|Hne].
      * rewrite fn_lookup_insert. intros [= <- <-].
        rewrite elem_of_app, list_elem_of_singleton. by right.
      * rewrite fn_lookup_insert_ne, elem_of_app by done. eauto.
  - split; intros t' r' o'.
    + rewrite !elem_of_app, !list_elem_of_singleton.
      intros [Hin | [= <- <- <-]]; left; eauto.
    + destruct (decide (t = t')) as [->|Hne].
      * by rewrite fn_lookup_insert.
      * rewrite fn_lookup_insert_ne, elem_of_app by done. eauto.
Qed.

Lemma finished_owed c : finished c → concat (owed <$> callers c) = [].
Proof.
  unfold finished. induction 1 as [|th ths [Htd Hr] _ IH]; [done|].
  rewrite fmap_cons. cbn [concat]. rewrite IH. unfold owed. by rewrite Hr, Htd.
Qed.

Lemma finished_free st0 pool c ms ph abs :
  coherent st0 pool c ms ph abs → finished c → storage_lock c = None.
Proof.
  intros Hc Hfin. destruct (storage_lock c) as [[o n]|] eqn:Hlk; [|done].
  destruct (coh_owner _ _ _ _ _ _ Hc o n Hlk) as (_ & th & r & p & Ho & Hr & _).
  unfold finished in Hfin. rewrite Forall_lookup in Hfin.
  destruct (Hfin o th Ho) as [_ Hidle]. congruence.
Qed.

Lemma concat_posts kvs : concat (posts kvs) = post <$> kvs.
Proof. unfold posts. induction kvs as [|kv kvs IH]; cbn; [done|]. by rewrite IH. Qed.

Lemma serial_posts kvs st :
  NoDup kvs.*1 →
  serial (post <$> kvs) st =
    ((λ _, inr (JObj [("success", JBool true); ("message", JStr "Value stored successfully")]))
       <$> kvs,
     list_to_map kvs ∪ st).
Proof.
  revert st. induction kvs as [|[k v] kvs IH]; intros st Hnd; cbn.
  - by rewrite (left_id_L ∅ (∪)).
  - apply NoDup_cons in Hnd as [Hk Hnd]. cbn in Hk.
    rewrite run_store_key. cbn. rewrite bool_decide_eq_true_2 by done.
    rewrite (IH _ Hnd). f_equal.
    rewrite <- insert_union_l.
    by rewrite insert_union_r by (by apply not_elem_of_list_to_map_1).
Qed.

(** * The store under concurrent callers *)

(** C9 (concurrency).  Take any number of callers, each with any list of
    requests, and any schedule that the lock allows.  Then
    - the history of invocations and returns is linearizable: the calls,
      served one at a time in the order of their commit points, give the
      outcomes the callers received, and whenever the lock is free the
      dictionary is exactly the store of that serial run (so no half-done
      write is ever visible and no committed write is lost);
    - some caller can always move unless every caller is done, and no
      schedule is longer than six moves per request, so every call
      completes;
    - once every caller is done, the serial order contains every request of
      every caller;
    - in particular, when [N] callers each POST one pair and the keys are
      distinct, starting from the empty store: all [N] calls return success,
      the dictionary is exactly those [N] pairs, its size is [N], and
      [get_key] on each key returns the value written under it. *)
Theorem concurrent_calls_linearizable st0 pool sched c :
  exec sched (init st0 pool) = Some c →
  (∃ cs final,
     linearization st0 (history c) cs final
     ∧ (storage_lock c = None → storage c = final)
     ∧ (finished c → cs.*1 ≡ₚ concat pool))
  ∧ (finished c ∨ ∃ t c', step_thread t c = Some c')
  ∧ (length sched ≤ 6 * length (concat pool))%nat
  ∧ (∀ kvs, NoDup kvs.*1 → st0 = ∅ → pool = posts kvs → finished c →
       storage c = list_to_map kvs
       ∧ size (storage c) = length kvs
       ∧ (∀ t r o, Return t r o ∈ history c →
            o = inr (JObj [("success", JBool true);
                           ("message", JStr "Value stored successfully")]))
       ∧ (∀ k v, (k, v) ∈ kvs →
            run (get_key k) (storage c) =
              (inr (JObj [("success", JBool true); ("key", JStr k); ("value", v)]),
               storage c))).
Proof.
  intros Hexec.
  destruct (exec_coherent _ _ _ _ _ _ _ _ (coherent_init st0 pool) Hexec)
    as (ms & ph & abs & Hc).
  assert (Hperm : finished c → (commits ms).*1 ≡ₚ concat pool).
  { intros Hfin. pose proof (coh_owed _ _ _ _ _ _ Hc) as Ho.
    by rewrite (finished_owed _ Hfin), app_nil_r in Ho. }
  split_and!.
  - exists (commits ms), abs. split_and!; [|apply (coh_free _ _ _ _ _ _ Hc)|done].
    exists ms. split_and!; [apply (coh_history _ _ _ _ _ _ Hc)| |done|apply (coh_serial _ _ _ _ _ _ Hc)].
    exists ph. apply (coh_protocol _ _ _ _ _ _ Hc).
  - eapply coherent_progress, Hc.
  - destruct (init_fuel st0 pool) as (ns & Hf & Hsum).
    destruct (exec_fuel _ _ _ _ Hf Hexec) as (ns' & _ & Hle). lia.
  - intros kvs Hnd -> -> Hfin.
    pose proof (Hperm Hfin) as Hcs. rewrite concat_posts in Hcs.
    apply Permutation_map_inv in Hcs as (kvs' & Hcs & Hkvs).
    assert (Hnd' : NoDup kvs'.*1) by (by rewrite <- Hkvs).
    pose proof (coh_serial _ _ _ _ _ _ Hc) as Hser.
    rewrite Hcs in Hser. fold (fmap (M := list) post kvs') in Hser.
    rewrite (serial_posts _ _ Hnd'), (right_id_L ∅ (∪)) in Hser.
    injection Hser as Houts Habs.
    assert (Hst : storage c = list_to_map kvs).
    { rewrite (coh_free _ _ _ _ _ _ Hc (finished_free _ _ _ _ _ _ Hc Hfin)), <- Habs.
      symmetry. by apply list_to_map_proper. }
    split_and!.
    + done.
    + rewrite Hst. by apply map_size_list_to_map.
    + intros t r o Hret. rewrite <- (coh_history _ _ _ _ _ _ Hc) in Hret.
      assert (Hin : Ev (Return t r o) ∈ ms).
      { unfold erase in Hret. apply list_elem_of_omap in Hret as (m & Hm & Heq).
        destruct m; [|done]. by injection Heq as ->. }
      apply (proj1 (protocol_return_committed _ _ (coh_protocol _ _ _ _ _ _ Hc))) in Hin.
      assert (Ho : o ∈ (commits ms).*2).
      { apply list_elem_of_fmap. exists (r, o). split; [done|].
        unfold commits. apply list_elem_of_omap. by exists (Commit t r o). }
      rewrite <- Houts in Ho. apply list_elem_of_fmap in Ho as (kv & -> & _). done.
    + intros k v Hkv. rewrite run_get_key, Hst.
      by rewrite (elem_of_list_to_map_1 _ _ _ Hnd Hkv).
Qed.

Lemma concurrent_calls_linearizable_witness :
  ∃ c, exec interleaved (init ∅ (posts two_writers)) = Some c
       ∧ finished c
       ∧ storage c = list_to_map two_writers
       ∧ size (storage c) = 2%nat.
Proof.
  destruct (exec interleaved (init ∅ (posts two_writers))) as [c|] eqn:Hexec;
    [|by vm_compute in Hexec].
  exists c. split; [reflexivity|].
  assert (Hfin : finished c).
  { pose proof Hexec as Hc. vm_compute in Hc. injection Hc as <-. repeat constructor. }
  split; [exact Hfin|].
  destruct (concurrent_calls_linearizable _ _ _ _ Hexec) as (_ & _ & _ & Hposts).
  destruct (Hposts two_writers) as (Hst & Hsize & _);
    [apply (bool_decide_unpack _); by vm_compute | reflexivity | reflexivity | exact Hfin |].
  exact (conj Hst Hsize).
Defined.

(** * Further properties of the handlers, one caller at a time *)

Lemma serve_health st :
  serve GET_health st =
    ({| status := HTTP_200_OK; body := JObj [("status", JStr "healthy")] |}, st).
Proof. reflexivity. Qed.

(** X1 (delete removes).  After a write to [k] by either verb, DELETE on [k]
    answers 200, the store is the original one without [k] (whether or not
    [k] was there before the write), and a GET on [k] is then 404. *)
Theorem put_delete_get_not_found (k : string) (v : json) (st : gmap string json) put :
  put = POST_keys k (ValueModel.Build k v) ∨ put = PUT_keys k (ValueModel.Build k v) →
  serve (DELETE_keys k) (serve put st).2 =
    ({| status := HTTP_200_OK;
        body := JObj [("success", JBool true); ("message", JStr "Key deleted successfully")] |},
     delete k st)
  ∧ (run (get_key k) (delete k st)).1 = inl (HTTP (KeyNotFoundError k))
  ∧ status (serve (GET_keys k) (delete k st)).1 = HTTP_404_NOT_FOUND.
Proof.
  intros [-> | ->]; rewrite ?serve_POST, ?serve_PUT;
    rewrite bool_decide_eq_true_2 by reflexivity; cbn [fst snd ValueModel.value];
    rewrite serve_DELETE, run_get_key, serve_GET, lookup_insert_eq, lookup_delete_eq,
      delete_insert_eq; done.
Qed.

(** What a request does to the dictionary, and what its response looks at. *)

Lemma serve_store (r : Request) (st : gmap string json) :
  (serve r st).2 =
    match r with
    | POST_keys key data | PUT_keys key data =>
        if bool_decide (key = ValueModel.key data)
        then <[key := ValueModel.value data]> st else st
    | DELETE_keys key => delete key st
    | GET_health | GET_keys _ => st
    end.
Proof.
  destruct r as [|key data|key data|key|key];
    rewrite ?serve_health, ?serve_POST, ?serve_PUT, ?serve_GET, ?serve_DELETE.
  - done.
  - by case_bool_decide.
  - by case_bool_decide.
  - by destruct (st !! key).
  - destruct (st !! key) eqn:Hk; [done|]. cbn. by rewrite delete_id.
Qed.

Lemma may_change_key_of (k : string) (r : Request) : may_change k r → key_of r = Some k.
Proof. destruct r; cbn; by intros; simplify_eq. Qed.

Lemma serve_frame (r : Request) (st : gmap string json) (k : string) :
  ¬ may_change k r → (serve r st).2 !! k = st !! k.
Proof.
  rewrite serve_store. destruct r as [|key data|key data|key|key]; cbn; intros Hk;
    try case_bool_decide; try done.
  - by rewrite lookup_insert_ne.
  - by rewrite lookup_insert_ne.
  - by rewrite lookup_delete_ne.
Qed.

Lemma serve_local (r : Request) (st st' : gmap string json) :
  (∀ k, key_of r = Some k → st !! k = st' !! k) →
  (serve r st).1 = (serve r st').1.
Proof.
  intros Hk. destruct r as [|key data|key data|key|key];
    rewrite ?serve_health, ?serve_POST, ?serve_PUT, ?serve_GET, ?serve_DELETE.
  - done.
  - by case_bool_decide.
  - by case_bool_decide.
  - rewrite (Hk key eq_refl). by destruct (st' !! key).
  - rewrite (Hk key eq_refl). by destruct (st' !! key).
Qed.

(** X2 (distinct keys commute).  Two requests whose path keys differ can be
    served in either order: each gets the same response as if it had come
    first, and the final store is the same. *)
Theorem requests_on_distinct_keys_commute (r1 r2 : Request) (st : gmap string json) :
  (∀ k1 k2, key_of r1 = Some k1 → key_of r2 = Some k2 → k1 ≠ k2) →
  (serve r2 (serve r1 st).2).2 = (serve r1 (serve r2 st).2).2
  ∧ (serve r1 (serve r2 st).2).1 = (serve r1 st).1
  ∧ (serve r2 (serve r1 st).2).1 = (serve r2 st).1.
Proof.
  intros Hne. split_and!.
  - rewrite !serve_store.
    destruct r1 as [|k1 d1|k1 d1|k1|k1], r2 as [|k2 d2|k2 d2|k2|k2];
      try pose proof (Hne k1 k2 eq_refl eq_refl) as H12;
      repeat case_bool_decide; try done;
      first [ by apply insert_insert_ne
            | by apply delete_insert_ne
            | by (symmetry; apply delete_insert_ne)
            | by apply delete_delete ].
  - apply serve_local. intros k1 Hk1. apply serve_frame.
    intros Hk2%may_change_key_of. by apply (Hne k1 k1).
  - apply serve_local. intros k2 Hk2. apply serve_frame.
    intros Hk1%may_change_key_of. by apply (Hne k2 k2).
Qed.

(** X3 (repeating a request).  POST, PUT, GET and the health check can be
    repeated: the second time the response and the store are what they were
    after the first.  (DELETE is the one route for which this fails: its
    second answer is 404.) *)
Theorem repeated_request_same_answer (r : Request) (st : gmap string json) :
  (∀ k, r ≠ DELETE_keys k) →
  serve r (serve r st).2 = serve r st.
Proof.
  intros Hr. destruct r as [|key data|key data|key|key];
    rewrite ?serve_health, ?serve_POST, ?serve_PUT, ?serve_GET.
  - done.
  - case_bool_decide; cbn [snd]; by rewrite ?insert_insert_eq.
  - case_bool_decide; cbn [snd]; by rewrite ?insert_insert_eq.
  - destruct (st !! key) eqn:Hk; cbn [snd]; by rewrite Hk.
  - by destruct (Hr key).
Qed.

(** X4 (the number of keys).  The count that [shutdown_event] reads grows by
    one exactly on a write with matching keys to an absent key, shrinks by
    one exactly on a DELETE of a present key, and stays as it is on every
    other request. *)
Theorem key_count_accounting (r : Request) (st : gmap string json) :
  key_count (serve r st).2 =
    match r with
    | POST_keys key data | PUT_keys key data =>
        match st !! key with
        | None => if bool_decide (key = ValueModel.key data)
                  then S (key_count st) else key_count st
        | Some _ => key_count st
        end
    | DELETE_keys key =>
        match st !! key with
        | Some _ => pred (key_count st)
        | None => key_count st
        end
    | GET_health | GET_keys _ => key_count st
    end
  ∧ (∀ key, r = DELETE_keys key → is_Some (st !! key) → (0 < key_count st)%nat).
Proof.
  unfold key_count. rewrite serve_store. split.
  - destruct r as [|key data|key data|key|key]; try done.
    + destruct (st !! key) eqn:Hk; case_bool_decide; try done.
      * by rewrite map_size_insert_Some.
      * by rewrite map_size_insert_None.
    + destruct (st !! key) eqn:Hk; case_bool_decide; try done.
      * by rewrite map_size_insert_Some.
      * by rewrite map_size_insert_None.
    + destruct (st !! key) eqn:Hk.
      * by rewrite map_size_delete, Hk.
      * by rewrite delete_id.
  - intros key _ [v Hv]. destruct (decide (size st = 0%nat)) as [Hz|]; [|lia].
    apply map_size_empty_inv in Hz. subst st. by rewrite lookup_empty in Hv.
Qed.

Lemma serve_run (r : Request) (st : gmap string json) :
  (run (endpoint r) st).2 = (serve r st).2.
Proof. unfold serve. by destruct (run (endpoint r) st). Qed.

Lemma serial_cons (r : Request) (rs : list Request) (st : gmap string json) :
  (serial (r :: rs) st).2 = (serial rs (serve r st).2).2.
Proof.
  cbn. rewrite <- serve_run. destruct (run (endpoint r) st) as [o st1]. cbn.
  by destruct (serial rs st1).
Qed.

(** X5 (a binding outlives unrelated traffic).  Over any sequence of requests
    none of which is a POST, PUT or DELETE on the path key [k], the binding
    of [k] stays what it was, present or absent, and so does the answer of a
    GET on [k]. *)
Theorem untouched_key_survives (rs : list Request) (st : gmap string json) (k : string) :
  Forall (λ r, ¬ may_change k r) rs →
  (serial rs st).2 !! k = st !! k
  ∧ (serve (GET_keys k) (serial rs st).2).1 = (serve (GET_keys k) st).1.
Proof.
  intros Hrs.
  assert (Hk : (serial rs st).2 !! k = st !! k).
  { revert st. induction Hrs as [|r rs Hr _ IH]; intros st; [done|].
    by rewrite serial_cons, IH, serve_frame. }
  split; [exact Hk|]. apply serve_local. by intros ? [= <-].
Qed.


(** * Further properties of the handlers under concurrent callers *)

Lemma reachable_coherent st0 pool sched c :
  exec sched (init st0 pool) = Some c →
  ∃ ms ph abs, coherent st0 pool c ms ph abs.
Proof. intros Hexec. eapply exec_coherent; [apply coherent_init | exact Hexec]. Qed.

(** X7 (the dictionary is only touched under the lock).  In every
    configuration a schedule can reach, a caller whose next action is on the
    dictionary, or is the release, owns the lock, entered once; so two such
    callers are the same caller.  A caller about to acquire the lock does not
    own it already: the lock's re-entrancy is never used. *)
Theorem dictionary_only_under_lock st0 pool sched c t th r (X : Type) (a : action X) k :
  exec sched (init st0 pool) = Some c →
  callers c !! t = Some th →
  running th = Some (r, Vis a k) →
  (needs_lock a = true → storage_lock c = Some (t, 0%nat))
  ∧ (needs_lock a = false → owner (storage_lock c) ≠ Some t)
  ∧ (∀ t' th' r' (X' : Type) (a' : action X') k',
       callers c !! t' = Some th' → running th' = Some (r', Vis a' k') →
       needs_lock a = true → needs_lock a' = true → t' = t).
Proof.
  intros (ms & ph & abs & Hc)%reachable_coherent Ht Hr.
  assert (Hheld : ∀ t th r (X : Type) (a : action X) k,
            callers c !! t = Some th → running th = Some (r, Vis a k) →
            (needs_lock a = true → storage_lock c = Some (t, 0%nat))
            ∧ (needs_lock a = false → owner (storage_lock c) ≠ Some t)).
  { clear -Hc. intros t0 th0 r0 X0 a0 k0 Ht Hr.
    rename t0 into t, th0 into th, r0 into r, X0 into X, a0 into a, k0 into k.
    pose proof (coh_callers _ _ _ _ _ _ Hc t th Ht) as Hok.
    unfold caller_ok in Hok. rewrite Hr in Hok. cbn in Hok.
    destruct Hok as [_ [[Heq Hfree] | (Hlk & Hin & _)]].
    - pose proof (outside_endpoint r) as Hout. rewrite <- Heq in Hout.
      destruct a; cbn in Hout |- *; done.
    - destruct a; cbn in Hin |- *; done. }
  destruct (Hheld _ _ _ _ _ _ Ht Hr) as [Hyes Hno]. split_and!; [done..|].
  intros t' th' r' X' a' k' Ht' Hr' Ha Ha'.
  destruct (Hheld _ _ _ _ _ _ Ht' Hr') as [Hyes' _].
  specialize (Hyes Ha). specialize (Hyes' Ha'). congruence.
Qed.

(** X8 (the lock is released on every way out).  In every reachable
    configuration a caller with no call in flight, or whose call has its
    result or its exception ready to return (a [KeyNotFoundError] raised
    inside the block included), does not own the lock; the lock is never
    entered twice; and once every caller is done the lock is free. *)
Theorem lock_released_on_exit st0 pool sched c :
  exec sched (init st0 pool) = Some c →
  (∀ t th, callers c !! t = Some th →
     running th = None ∨ (∃ r p o, running th = Some (r, p) ∧ finish p = Some o) →
     owner (storage_lock c) ≠ Some t)
  ∧ (∀ o n, storage_lock c = Some (o, n) → n = 0%nat)
  ∧ (finished c → storage_lock c = None).
Proof.
  intros (ms & ph & abs & Hc)%reachable_coherent. split_and!.
  - intros t th Ht Hout.
    pose proof (coh_callers _ _ _ _ _ _ Hc t th Ht) as Hok. unfold caller_ok in Hok.
    destruct Hout as [Hr | (r & p & o & Hr & Ho)]; rewrite Hr in Hok.
    + by destruct Hok.
    + rewrite Ho in Hok. by destruct Hok.
  - intros o n Hlk. by destruct (coh_owner _ _ _ _ _ _ Hc o n Hlk).
  - by eapply finished_free.
Qed.

Lemma step_thread_invoke t c th r rest :
  callers c !! t = Some th →
  running th = None →
  todo th = r :: rest →
  step_thread t c =
    Some {| storage := storage c; storage_lock := storage_lock c;
            callers := <[t := {| todo := rest; running := Some (r, endpoint r) |}]> (callers c);
            history := history c ++ [Invoke t r] |}.
Proof. intros Ht Hr Htd. unfold step_thread. rewrite Ht. cbn. by rewrite Hr, Htd. Qed.

(** X9 (no waiting without a block).  The health check, and a write whose
    path key and body key differ, never ask for the lock: whatever the
    configuration, also while another caller holds the lock, a caller with
    such a request next is served in two moves, with the outcome of the
    handler run alone, and lock and dictionary are left as they were. *)
Theorem lock_free_requests_never_wait c t th r rest :
  callers c !! t = Some th →
  todo th = r :: rest →
  running th = None →
  r = GET_health
  ∨ (∃ key data, (r = POST_keys key data ∨ r = PUT_keys key data)
                 ∧ key ≠ ValueModel.key data) →
  ∃ c2, exec [t; t] c = Some c2
        ∧ storage c2 = storage c
        ∧ storage_lock c2 = storage_lock c
        ∧ history c2 = history c ++ [Invoke t r; Return t r (run (endpoint r) (storage c)).1].
Proof.
  intros Ht Htd Hr Hreq.
  assert (Hfin : finish (endpoint r) = Some (run (endpoint r) (storage c)).1).
  { destruct Hreq as [-> | (key & data & [-> | ->] & Hne)]; cbn [endpoint].
    - reflexivity.
    - unfold store_key. by rewrite bool_decide_eq_true_2.
    - unfold update_key. by rewrite bool_decide_eq_true_2. }
  assert (Hlt : (t < length (callers c))%nat) by (eapply lookup_lt_Some; eauto).
  cbn [exec]. rewrite (step_thread_invoke _ _ _ _ _ Ht Hr Htd). cbn [mbind option_bind].
  rewrite (step_thread_return t _ {| todo := rest; running := Some (r, endpoint r) |}
             r (endpoint r) (run (endpoint r) (storage c)).1);
    cbn; [|by rewrite list_lookup_insert_eq|done|exact Hfin].
  eexists. split_and!; [reflexivity|done..|].
  by rewrite <- app_assoc.
Qed.

Lemma coherent_completes st0 pool (n : nat) c ms ph abs ns :
  coherent st0 pool c ms ph abs →
  Forall2 caller_fuel (callers c) ns →
  (sum_list ns ≤ n)%nat →
  ∃ sched c', exec sched c = Some c' ∧ finished c'.
Proof.
  revert c ms ph abs ns. induction n as [|n IH]; intros c ms ph abs ns Hc Hf Hn;
    (destruct (coherent_progress _ _ _ _ _ _ Hc) as [Hfin | (t & c1 & Hstep)];
       [by exists [], c|]);
    destruct (step_fuel _ _ _ _ Hf Hstep) as (ns1 & Hf1 & Hlt); [lia|].
  destruct (step_coherent _ _ _ _ _ _ _ _ Hc Hstep) as (ms1 & ph1 & abs1 & Hc1).
  destruct (IH _ _ _ _ _ Hc1 Hf1) as (sched & c' & Hexec & Hfin); [lia|].
  exists (t :: sched), c'. split; [|done]. cbn. by rewrite Hstep.
Qed.

(** X10 (every call can complete).  From every configuration a schedule can
    reach, whoever holds the lock and wherever the callers stand, some
    continuation of the schedule brings every caller to the end of its
    requests. *)
Theorem every_schedule_can_finish st0 pool sched c :
  exec sched (init st0 pool) = Some c →
  ∃ sched' c', exec sched' c = Some c' ∧ finished c'
               ∧ exec (sched ++ sched') (init st0 pool) = Some c'.
Proof.
  intros Hexec.
  destruct (reachable_coherent _ _ _ _ Hexec) as (ms & ph & abs & Hc).
  destruct (init_fuel st0 pool) as (ns0 & Hf0 & _).
  destruct (exec_fuel _ _ _ _ Hf0 Hexec) as (ns & Hf & _).
  destruct (coherent_completes _ _ _ _ _ _ _ _ Hc Hf (le_n _))
    as (sched' & c' & Hexec' & Hfin).
  exists sched', c'. split_and!; [done..|].
  clear -Hexec Hexec'. revert Hexec. generalize (init st0 pool).
  induction sched as [|t sched IH]; intros c0; cbn.
  - by intros [= ->].
  - destruct (step_thread t c0); cbn; [apply IH|done].
Qed.



(** * The harness of [test-client/main.py] *)

(** Every path through a workflow: one case per answer of the remote end and
    per test the handler makes on it, taken in the order of the source. *)
Ltac harness_reduce :=
  cbv beta iota zeta delta [fst snd app fmap list_fmap last] in *.

Ltac harness_step cl :=
  match goal with
  | |- context [cl ?c ?s] => destruct (cl c s) as [[[|?]|?] ?] eqn:?
  | |- context [bool_decide ?P] => destruct (bool_decide P) eqn:?
  | |- context [httpx.decoded ?r] => destruct (httpx.decoded r) as [?|[]] eqn:?
  | |- context [ne_str ?x ?s] => destruct (ne_str x s) eqn:?
  end; harness_reduce.

Ltac harness_walk cl :=
  unfold test_deletion, test_overwrite, guarded, mbind, mret, script_bind, script_ret,
    await, return_if, json_of, get_of, recorded,
    post_call, put_call, get_call, delete_call, keys_url;
  harness_reduce; repeat harness_step cl.

Section Harness.
Context {Remote : Type}.
Context (client : httpx.Call → Remote → (httpx.Failure + httpx.Response) * Remote).
Context (base : string).
Implicit Types (s : Remote) (verdict : json).

Lemma ne_str_false (x : json) (s : string) : ne_str x s = false ↔ x = JStr s.
Proof.
  destruct x; cbn; try (split; [done|by intros [=]]).
  rewrite bool_decide_eq_false. split; [|by intros [= ->]; intros []].
  intros Hs. f_equal. by destruct (decide (s0 = s)).
Qed.

(** X11 (the verdict of a workflow).  Whatever the remote end answers, and
    whatever it raises, a workflow returns a verdict and never raises: either
    the success verdict with four steps executed, or an error verdict that
    names the workflow and one of its six steps. *)
Theorem harness_verdict_shape s0 :
  ((test_deletion client base s0).1 = TestResponse true "test_deletion" (TestDetails 4 true)
   ∨ ∃ step error,
       (test_deletion client base s0).1 = TestErrorResponse false "test_deletion" step error
       ∧ step ∈ ["store"; "retrieve"; "delete"; "verify_deletion"; "connection"; "unknown"])
  ∧ ((test_overwrite client base s0).1 = TestResponse true "test_overwrite" (TestDetails 4 true)
     ∨ ∃ step error,
         (test_overwrite client base s0).1 = TestErrorResponse false "test_overwrite" step error
         ∧ step ∈ ["store_original"; "retrieve_original"; "overwrite"; "verify_new";
                   "connection"; "unknown"]).
Proof.
  split; harness_walk client; try (by left);
    right; do 2 eexists; (split; [reflexivity|set_solver]).
Qed.

Lemma test_deletion_passes s0 r1 s1 r2 s2 r3 s3 r4 s4 members :
  client (post_call base "test_delete_key" (JStr "test_delete_value")) s0 = (inr r1, s1) →
  httpx.status_code r1 ∈ [200; 201] →
  client (get_call base "test_delete_key") s1 = (inr r2, s2) →
  httpx.status_code r2 = 200 →
  httpx.decoded r2 = inr (JObj members) →
  dict_get members "value" = JStr "test_delete_value" →
  client (delete_call base "test_delete_key") s2 = (inr r3, s3) →
  httpx.status_code r3 = 200 →
  client (get_call base "test_delete_key") s3 = (inr r4, s4) →
  httpx.status_code r4 = 404 →
  test_deletion client base s0 = (TestResponse true "test_deletion" (TestDetails 4 true), s4).
Proof.
  intros H1 Hs1 H2 Hs2 Hd Hv H3 Hs3 H4 Hs4.
  unfold test_deletion, guarded, mbind, mret, script_bind, script_ret,
    await, return_if, json_of, get_of, post_call, put_call, get_call, delete_call, keys_url in *.
  rewrite H1, bool_decide_eq_false_2 by (by intros ?).
  rewrite H2, Hs2, bool_decide_eq_false_2 by (by intros ?).
  rewrite Hd, Hv. cbn [ne_str]. rewrite bool_decide_eq_false_2 by (by intros ?).
  rewrite H3, Hs3, bool_decide_eq_false_2 by (by intros ?).
  rewrite H4, Hs4, bool_decide_eq_false_2 by (by intros ?).
  reflexivity.
Qed.

(** X12 (when the deletion workflow passes).  [test_deletion] returns the
    success verdict exactly when the remote end answered its four calls, in
    order POST, GET, DELETE, GET on [/keys/test_delete_key]: 200 or 201 to
    the POST, 200 to the first GET with a JSON object whose ["value"] is the
    string written, 200 to the DELETE and 404 to the last GET.  Anything
    else, an exception included, gives another verdict. *)
Theorem test_deletion_passes_iff s0 s' :
  test_deletion client base s0 = (TestResponse true "test_deletion" (TestDetails 4 true), s')
  ↔ ∃ r1 s1 r2 s2 r3 s3 r4 members,
      client (post_call base "test_delete_key" (JStr "test_delete_value")) s0 = (inr r1, s1)
      ∧ httpx.status_code r1 ∈ [200; 201]
      ∧ client (get_call base "test_delete_key") s1 = (inr r2, s2)
      ∧ httpx.status_code r2 = 200
      ∧ httpx.decoded r2 = inr (JObj members)
      ∧ dict_get members "value" = JStr "test_delete_value"
      ∧ client (delete_call base "test_delete_key") s2 = (inr r3, s3)
      ∧ httpx.status_code r3 = 200
      ∧ client (get_call base "test_delete_key") s3 = (inr r4, s')
      ∧ httpx.status_code r4 = 404.
Proof.
  split.
  - intros Hpass. revert Hpass. harness_walk client; intros [= <-].
    repeat match goal with
           | H : bool_decide _ = false |- _ => apply bool_decide_eq_false in H
           | H : ne_str _ _ = false |- _ => apply ne_str_false in H
           end.
    do 8 eexists. split_and!; try done; by apply dec_stable.
  - intros (r1 & s1 & r2 & s2 & r3 & s3 & r4 & members & ?). destruct_and!.
    by eapply test_deletion_passes.
Qed.


Lemma test_overwrite_passes s0 r1 s1 r2 s2 r3 s3 r4 s4 r5 s5 members members' :
  client (post_call base "test_overwrite_key" (JStr "original_value")) s0 = (inr r1, s1) →
  httpx.status_code r1 ∈ [200; 201] →
  client (get_call base "test_overwrite_key") s1 = (inr r2, s2) →
  httpx.status_code r2 = 200 →
  httpx.decoded r2 = inr (JObj members) →
  dict_get members "value" = JStr "original_value" →
  client (put_call base "test_overwrite_key" (JStr "new_value")) s2 = (inr r3, s3) →
  httpx.status_code r3 = 200 →
  client (get_call base "test_overwrite_key") s3 = (inr r4, s4) →
  httpx.status_code r4 = 200 →
  httpx.decoded r4 = inr (JObj members') →
  dict_get members' "value" = JStr "new_value" →
  client (delete_call base "test_overwrite_key") s4 = (inr r5, s5) →
  test_overwrite client base s0 = (TestResponse true "test_overwrite" (TestDetails 4 true), s5).
Proof.
  intros H1 Hs1 H2 Hs2 Hd Hv H3 Hs3 H4 Hs4 Hd' Hv' H5.
  unfold test_overwrite, guarded, mbind, mret, script_bind, script_ret,
    await, return_if, json_of, get_of, post_call, put_call, get_call, delete_call, keys_url in *.
  rewrite H1, bool_decide_eq_false_2 by (by intros ?).
  rewrite H2, Hs2, bool_decide_eq_false_2 by (by intros ?).
  rewrite Hd, Hv. cbn [ne_str]. rewrite bool_decide_eq_false_2 by (by intros ?).
  rewrite H3, Hs3, bool_decide_eq_false_2 by (by intros ?).
  rewrite H4, Hs4, bool_decide_eq_false_2 by (by intros ?).
  rewrite Hd', Hv'. cbn [ne_str]. rewrite bool_decide_eq_false_2 by (by intros ?).
  rewrite H5. reflexivity.
Qed.

(** X13 (when the overwrite workflow passes).  [test_overwrite] returns the
    success verdict exactly when the remote end answered POST, GET, PUT, GET
    on [/keys/test_overwrite_key] with: 200 or 201 to the POST, 200 and the
    original value to the first GET, 200 (201 is not accepted) to the PUT,
    200 and the new value to the second GET; and the clean-up DELETE was
    answered at all.  The status of the clean-up is not looked at, and the
    verdict counts four steps although five calls were made. *)
Theorem test_overwrite_passes_iff s0 s' :
  test_overwrite client base s0 = (TestResponse true "test_overwrite" (TestDetails 4 true), s')
  ↔ ∃ r1 s1 r2 s2 r3 s3 r4 s4 r5 members members',
      client (post_call base "test_overwrite_key" (JStr "original_value")) s0 = (inr r1, s1)
      ∧ httpx.status_code r1 ∈ [200; 201]
      ∧ client (get_call base "test_overwrite_key") s1 = (inr r2, s2)
      ∧ httpx.status_code r2 = 200
      ∧ httpx.decoded r2 = inr (JObj members)
      ∧ dict_get members "value" = JStr "original_value"
      ∧ client (put_call base "test_overwrite_key" (JStr "new_value")) s2 = (inr r3, s3)
      ∧ httpx.status_code r3 = 200
      ∧ client (get_call base "test_overwrite_key") s3 = (inr r4, s4)
      ∧ httpx.status_code r4 = 200
      ∧ httpx.decoded r4 = inr (JObj members')
      ∧ dict_get members' "value" = JStr "new_value"
      ∧ client (delete_call base "test_overwrite_key") s4 = (inr r5, s').
Proof.
  split.
  - intros Hpass. revert Hpass. harness_walk client; intros [= <-].
    repeat match goal with
           | H : bool_decide _ = false |- _ => apply bool_decide_eq_false in H
           | H : ne_str _ _ = false |- _ => apply ne_str_false in H
           end.
    do 11 eexists. split_and!; try done; by apply dec_stable.
  - intros (r1 & s1 & r2 & s2 & r3 & s3 & r4 & s4 & r5 & members & members' & ?).
    destruct_and!. by eapply test_overwrite_passes.
Qed.

(** X14 (the calls a workflow makes).  Run against a client that keeps a
    transcript, a workflow gives the verdict and leaves the remote end as it
    does without the transcript, and the calls it made are a prefix of its
    script: it never calls out of order, never skips a call, and stops at
    the first step that fails.  When it passes, it made the whole script:
    four calls for the deletion workflow, five for the overwrite one. *)
Theorem harness_calls_follow_script s0 :
  (let out := test_deletion (recorded client) base (s0, []) in
   test_deletion client base s0 = (out.1, out.2.1)
   ∧ out.2.2.*1 `prefix_of` deletion_calls base
   ∧ (out.1 = TestResponse true "test_deletion" (TestDetails 4 true) →
      out.2.2.*1 = deletion_calls base))
  ∧ (let out := test_overwrite (recorded client) base (s0, []) in
     test_overwrite client base s0 = (out.1, out.2.1)
     ∧ out.2.2.*1 `prefix_of` overwrite_calls base
     ∧ (out.1 = TestResponse true "test_overwrite" (TestDetails 4 true) →
        out.2.2.*1 = overwrite_calls base)).
Proof.
  split; cbn zeta; unfold deletion_calls, overwrite_calls; harness_walk client;
    (split_and!; [reflexivity| |done]); by eexists.
Qed.

(** X15 (timeouts).  A workflow answers with the verdict
    [step = "connection"], [error = "Timeout connecting to KV service"]
    exactly when the last call it made raised [TimeoutException], at
    whichever of its calls that happened (the clean-up DELETE of the
    overwrite workflow included, after every assertion has passed). *)
Theorem harness_timeout_is_connection_error s0 :
  (let out := test_deletion (recorded client) base (s0, []) in
   out.1 = TestErrorResponse false "test_deletion" "connection"
             "Timeout connecting to KV service"
   ↔ ∃ c, last out.2.2 = Some (c, inl httpx.TimeoutException))
  ∧ (let out := test_overwrite (recorded client) base (s0, []) in
     out.1 = TestErrorResponse false "test_overwrite" "connection"
               "Timeout connecting to KV service"
     ↔ ∃ c, last out.2.2 = Some (c, inl httpx.TimeoutException)).
Proof.
  split; cbn zeta; harness_walk client;
    (split; [intros Hv | intros [c Hl]]; try done; try (by simplify_eq); try (by eexists)).
Qed.

End Harness.

Lemma loopback_wired (base k : string) : wired (loopback base k) base k.
Proof.
  intros st. unfold loopback, answers_with, post_call, put_call, get_call, delete_call.
  cbn [httpx.url httpx.method httpx.payload].
  rewrite !bool_decide_eq_true_2 by done. split_and!; try intros v; cbn; eauto.
Qed.

(** What a wired client answers, call by call. *)
Lemma wired_answer
    (client : httpx.Call → gmap string json
              → (httpx.Failure + httpx.Response) * gmap string json)
    (c : httpx.Call) (st : gmap string json) served :
  answers_with (client c st) served →
  ∃ response, client c st = (inr response, served.2)
              ∧ httpx.status_code response = status served.1
              ∧ httpx.decoded response = inr (body served.1).
Proof.
  intros (Hst & response & Hr & Hc & Hd). exists response.
  split_and!; [|done..]. destruct (client c st) as [a st']. cbn in *. by subst.
Qed.

(** X16 (the deletion workflow against the service).  Against a client wired
    to the routes of [kv-service/main.py] for the key [test_delete_key],
    whatever the service's dictionary holds, [test_deletion] passes with
    four steps, and it leaves the dictionary as it was except that
    [test_delete_key] is absent: a value stored there before the run is
    gone. *)
Theorem test_deletion_against_service client base (st : gmap string json) :
  wired client base "test_delete_key" →
  test_deletion client base st =
    (TestResponse true "test_deletion" (TestDetails 4 true), delete "test_delete_key" st).
Proof.
  intros Hw.
  destruct (Hw st) as (Hpost & _).
  destruct (wired_answer client _ _ _
              (Hpost (JStr "test_delete_value"))) as (r1 & H1 & Hc1 & _).
  rewrite serve_POST, bool_decide_eq_true_2 in H1, Hc1 by done.
  cbn [fst snd status ValueModel.value] in H1, Hc1.
  destruct (Hw (<["test_delete_key" := JStr "test_delete_value"]> st))
    as (_ & _ & Hget & Hdel).
  destruct (wired_answer client _ _ _ Hget) as (r2 & H2 & Hc2 & Hd2).
  rewrite serve_GET, lookup_insert_eq in H2, Hc2, Hd2. cbn [fst snd status body] in H2, Hc2, Hd2.
  destruct (wired_answer client _ _ _ Hdel) as (r3 & H3 & Hc3 & _).
  rewrite serve_DELETE, lookup_insert_eq in H3, Hc3. cbn [fst snd status] in H3, Hc3.
  rewrite delete_insert_eq in H3.
  destruct (Hw (delete "test_delete_key" st)) as (_ & _ & Hget' & _).
  destruct (wired_answer client _ _ _ Hget') as (r4 & H4 & Hc4 & _).
  rewrite serve_GET, lookup_delete_eq in H4, Hc4. cbn [fst snd status] in H4, Hc4.
  eapply test_deletion_passes; [exact H1| |exact H2|exact Hc2|exact Hd2|reflexivity
                               |exact H3|exact Hc3|exact H4|exact Hc4].
  rewrite Hc1. set_solver.
Qed.

(** X17 (the overwrite workflow against the service).  Against a client wired
    to the routes of [kv-service/main.py] for the key [test_overwrite_key],
    whatever the service's dictionary holds, [test_overwrite] passes, and it
    leaves the dictionary as it was except that [test_overwrite_key] is
    absent. *)
Theorem test_overwrite_against_service client base (st : gmap string json) :
  wired client base "test_overwrite_key" →
  test_overwrite client base st =
    (TestResponse true "test_overwrite" (TestDetails 4 true), delete "test_overwrite_key" st).
Proof.
  intros Hw.
  destruct (Hw st) as (Hpost & _).
  destruct (wired_answer client _ _ _
              (Hpost (JStr "original_value"))) as (r1 & H1 & Hc1 & _).
  rewrite serve_POST, bool_decide_eq_true_2 in H1, Hc1 by done.
  cbn [fst snd status ValueModel.value] in H1, Hc1.
  destruct (Hw (<["test_overwrite_key" := JStr "original_value"]> st))
    as (_ & Hput & Hget & _).
  destruct (wired_answer client _ _ _ Hget) as (r2 & H2 & Hc2 & Hd2).
  rewrite serve_GET, lookup_insert_eq in H2, Hc2, Hd2. cbn [fst snd status body] in H2, Hc2, Hd2.
  destruct (wired_answer client _ _ _
              (Hput (JStr "new_value"))) as (r3 & H3 & Hc3 & _).
  rewrite serve_PUT, bool_decide_eq_true_2 in H3, Hc3 by done.
  cbn [fst snd status ValueModel.value] in H3, Hc3.
  rewrite insert_insert_eq in H3.
  destruct (Hw (<["test_overwrite_key" := JStr "new_value"]> st))
    as (_ & _ & Hget' & Hdel).
  destruct (wired_answer client _ _ _ Hget') as (r4 & H4 & Hc4 & Hd4).
  rewrite serve_GET, lookup_insert_eq in H4, Hc4, Hd4. cbn [fst snd status body] in H4, Hc4, Hd4.
  destruct (wired_answer client _ _ _ Hdel) as (r5 & H5 & _).
  rewrite serve_DELETE, lookup_insert_eq in H5. cbn [fst snd] in H5.
  rewrite delete_insert_eq in H5.
  eapply test_overwrite_passes; [exact H1| |exact H2|exact Hc2|exact Hd2|reflexivity
                                |exact H3|exact Hc3|exact H4|exact Hc4|exact Hd4|reflexivity
                                |exact H5].
  rewrite Hc1. set_solver.
Qed.

(** * The further properties at the values of the test suites *)

Lemma put_delete_get_not_found_witness :
  serve (DELETE_keys "workflow_test")
    (serve (POST_keys "workflow_test" (ValueModel.Build "workflow_test" (JStr "initial_value")))
       ∅).2 =
    ({| status := HTTP_200_OK;
        body := JObj [("success", JBool true); ("message", JStr "Key deleted successfully")] |},
     delete "workflow_test" ∅).
Proof.
  exact (proj1 (put_delete_get_not_found "workflow_test" (JStr "initial_value") ∅ _
                  (or_introl eq_refl))).
Defined.

Lemma requests_on_distinct_keys_commute_witness :
  (∀ k1 k2, key_of (POST_keys "testkey" (ValueModel.Build "testkey" (JStr "testvalue")))
            = Some k1 →
            key_of (DELETE_keys "other") = Some k2 → k1 ≠ k2)
  ∧ (serve (DELETE_keys "other")
       (serve (POST_keys "testkey" (ValueModel.Build "testkey" (JStr "testvalue")))
          {["other" := JInt 1]}).2).2 =
    (serve (POST_keys "testkey" (ValueModel.Build "testkey" (JStr "testvalue")))
       (serve (DELETE_keys "other") {["other" := JInt 1]}).2).2.
Proof.
  assert (Hne : ∀ k1 k2,
            key_of (POST_keys "testkey" (ValueModel.Build "testkey" (JStr "testvalue")))
            = Some k1 →
            key_of (DELETE_keys "other") = Some k2 → k1 ≠ k2).
  { intros k1 k2 [= <-] [= <-]. discriminate. }
  split; [exact Hne|].
  exact (proj1 (requests_on_distinct_keys_commute _ _ _ Hne)).
Defined.

Lemma repeated_request_same_answer_witness :
  (∀ k, PUT_keys "testkey" (ValueModel.Build "testkey" (JStr "updated")) ≠ DELETE_keys k)
  ∧ serve (PUT_keys "testkey" (ValueModel.Build "testkey" (JStr "updated")))
      (serve (PUT_keys "testkey" (ValueModel.Build "testkey" (JStr "updated"))) ∅).2 =
    serve (PUT_keys "testkey" (ValueModel.Build "testkey" (JStr "updated"))) ∅.
Proof.
  assert (Hr : ∀ k, PUT_keys "testkey" (ValueModel.Build "testkey" (JStr "updated"))
                    ≠ DELETE_keys k) by discriminate.
  split; [exact Hr|]. exact (repeated_request_same_answer _ _ Hr).
Defined.

Lemma untouched_key_survives_witness :
  Forall (λ r, ¬ may_change "testkey" r)
    [POST_keys "other" (ValueModel.Build "other" JNull); GET_keys "testkey";
     DELETE_keys "other"; GET_health]
  ∧ (serial [POST_keys "other" (ValueModel.Build "other" JNull); GET_keys "testkey";
             DELETE_keys "other"; GET_health]
       {["testkey" := JStr "testvalue"]}).2 !! "testkey" =
    ({["testkey" := JStr "testvalue"]} : gmap string json) !! "testkey".
Proof.
  assert (Hrs : Forall (λ r, ¬ may_change "testkey" r)
            [POST_keys "other" (ValueModel.Build "other" JNull); GET_keys "testkey";
             DELETE_keys "other"; GET_health]).
  { repeat constructor; cbn; (discriminate || tauto). }
  split; [exact Hrs|]. exact (proj1 (untouched_key_survives _ _ _ Hrs)).
Defined.

Lemma dictionary_only_under_lock_witness :
  ∃ c, exec [0; 0]%nat (init ∅ (posts two_writers)) = Some c
       ∧ storage_lock c = Some (0%nat, 0%nat).
Proof.
  destruct (exec [0; 0]%nat (init ∅ (posts two_writers))) as [c|] eqn:Hexec;
    [|by vm_compute in Hexec].
  exists c. split; [reflexivity|].
  assert (Hc : ∃ th r k, callers c !! 0%nat = Some th
                         ∧ running th = Some (r, Vis (SetItem "thread1_0" (JStr "value_0")) k)).
  { pose proof Hexec as H. vm_compute in H. injection H as <-.
    eexists _, _, _. split; reflexivity. }
  destruct Hc as (th & r & k & Ht & Hr).
  exact (proj1 (dictionary_only_under_lock _ _ _ _ _ _ _ _ _ _ Hexec Ht Hr) eq_refl).
Defined.

Lemma lock_released_on_exit_witness :
  ∃ c, exec interleaved (init ∅ (posts two_writers)) = Some c
       ∧ storage_lock c = None.
Proof.
  destruct (exec interleaved (init ∅ (posts two_writers))) as [c|] eqn:Hexec;
    [|by vm_compute in Hexec].
  exists c. split; [reflexivity|].
  assert (Hfin : finished c).
  { pose proof Hexec as H. vm_compute in H. injection H as <-. repeat constructor. }
  exact (proj2 (proj2 (lock_released_on_exit _ _ _ _ Hexec)) Hfin).
Defined.

Lemma lock_free_requests_never_wait_witness :
  ∃ c c2, exec [0; 0]%nat (init ∅ writer_and_probe) = Some c
          ∧ storage_lock c = Some (0%nat, 0%nat)
          ∧ exec [1; 1]%nat c = Some c2
          ∧ storage_lock c2 = storage_lock c
          ∧ history c2 =
              history c ++ [Invoke 1 GET_health;
                            Return 1 GET_health (run (endpoint GET_health) (storage c)).1].
Proof.
  destruct (exec [0; 0]%nat (init ∅ writer_and_probe)) as [c|] eqn:Hexec;
    [|by vm_compute in Hexec].
  assert (Hc : storage_lock c = Some (0%nat, 0%nat)
               ∧ callers c !! 1%nat = Some {| todo := [GET_health]; running := None |}).
  { vm_compute in Hexec. injection Hexec as <-. split; reflexivity. }
  destruct Hc as [Hlk Ht].
  destruct (lock_free_requests_never_wait c 1 _ GET_health [] Ht eq_refl eq_refl
              (or_introl eq_refl)) as (c2 & Hexec2 & _ & Hlk2 & Hh).
  exists c, c2. split_and!; [reflexivity|exact Hlk|exact Hexec2|exact Hlk2|exact Hh].
Defined.

Lemma every_schedule_can_finish_witness :
  ∃ c sched' c', exec [0; 0]%nat (init ∅ (posts two_writers)) = Some c
                 ∧ exec sched' c = Some c' ∧ finished c'.
Proof.
  destruct (exec [0; 0]%nat (init ∅ (posts two_writers))) as [c|] eqn:Hexec;
    [|by vm_compute in Hexec].
  destruct (every_schedule_can_finish _ _ _ _ Hexec) as (sched' & c' & Hexec' & Hfin & _).
  exists c, sched', c'. split_and!; [reflexivity|exact Hexec'|exact Hfin].
Defined.


Lemma test_deletion_against_service_witness :
  wired (loopback "http://kv-service:8000" "test_delete_key")
    "http://kv-service:8000" "test_delete_key"
  ∧ test_deletion (loopback "http://kv-service:8000" "test_delete_key")
      "http://kv-service:8000" {["test_delete_key" := JInt 7; "other" := JNull]} =
    (TestResponse true "test_deletion" (TestDetails 4 true),
     delete "test_delete_key" {["test_delete_key" := JInt 7; "other" := JNull]}).
Proof.
  split; [apply loopback_wired|].
  apply test_deletion_against_service, loopback_wired.
Defined.

Lemma test_overwrite_against_service_witness :
  wired (loopback "http://kv-service:8000" "test_overwrite_key")
    "http://kv-service:8000" "test_overwrite_key"
  ∧ test_overwrite (loopback "http://kv-service:8000" "test_overwrite_key")
      "http://kv-service:8000" ∅ =
    (TestResponse true "test_overwrite" (TestDetails 4 true),
     delete "test_overwrite_key" ∅).
Proof.
  split; [apply loopback_wired|].
  apply test_overwrite_against_service, loopback_wired.
Defined.

(** The mocked runs of [test-client/tests/test_main.py]. *)

Example test_deletion_success :
  (test_deletion scripted "http://kv-service:8000"
     [inr {| httpx.status_code := 201; httpx.text := ""; httpx.decoded := inl "" |};
      inr {| httpx.status_code := 200; httpx.text := "";
             httpx.decoded := inr (JObj [("value", JStr "test_delete_value")]) |};
      inr {| httpx.status_code := 200; httpx.text := ""; httpx.decoded := inl "" |};
      inr {| httpx.status_code := 404; httpx.text := ""; httpx.decoded := inl "" |}]).1 =
    JObj [("success", JBool true); ("test_name", JStr "test_deletion");
          ("details", JObj [("steps_executed", JInt 4);
                            ("all_assertions_passed", JBool true)])].
Proof. vm_compute. reflexivity. Qed.

Example test_deletion_store_failure :
  (test_deletion scripted "http://kv-service:8000"
     [inr {| httpx.status_code := 400; httpx.text := "Bad request";
             httpx.decoded := inl "" |}]).1 =
    JObj [("success", JBool false); ("test_name", JStr "test_deletion");
          ("error", JStr "Bad request"); ("step", JStr "store")].
Proof. vm_compute. reflexivity. Qed.

Example test_deletion_value_mismatch :
  (test_deletion scripted "http://kv-service:8000"
     [inr {| httpx.status_code := 201; httpx.text := ""; httpx.decoded := inl "" |};
      inr {| httpx.status_code := 200; httpx.text := "";
             httpx.decoded := inr (JObj [("value", JStr "wrong_value")]) |}]).1 =
    JObj [("success", JBool false); ("test_name", JStr "test_deletion");
          ("error", JStr "Value mismatch"); ("step", JStr "retrieve")].
Proof. vm_compute. reflexivity. Qed.

Example test_deletion_timeout :
  (test_deletion scripted "http://kv-service:8000" [inl httpx.TimeoutException]).1 =
    JObj [("success", JBool false); ("test_name", JStr "test_deletion");
          ("error", JStr "Timeout connecting to KV service"); ("step", JStr "connection")].
Proof. vm_compute. reflexivity. Qed.

Example test_overwrite_put_failure :
  (test_overwrite scripted "http://kv-service:8000"
     [inr {| httpx.status_code := 201; httpx.text := ""; httpx.decoded := inl "" |};
      inr {| httpx.status_code := 200; httpx.text := "";
             httpx.decoded := inr (JObj [("value", JStr "original_value")]) |};
      inr {| httpx.status_code := 500; httpx.text := "Internal server error";
             httpx.decoded := inl "" |}]).1 =
    JObj [("success", JBool false); ("test_name", JStr "test_overwrite");
          ("error", JStr "Internal server error"); ("step", JStr "overwrite")].
Proof. vm_compute. reflexivity. Qed.

Example test_deletion_unexpected_error :
  (test_deletion scripted "http://kv-service:8000"
     [inl (httpx.Error "Unexpected error")]).1 =
    JObj [("success", JBool false); ("test_name", JStr "test_deletion");
          ("error", JStr "Unexpected error"); ("step", JStr "unknown")].
Proof. vm_compute. reflexivity. Qed.
